(** * The chat view of entra-chat-connect: model and verified properties

    The development embeds the [ChatPage] component (its React state, the
    two callbacks [acquireToken] and [sendMessage], and the small event
    handlers around them) as executable Rocq functions, and proves the
    properties of the send-message cycle over that embedding.

    Conventions of the embedding:
    - a JavaScript string is the list of its UTF-16 code units;
    - the React state of the component is a record, written by the
      [set...] operations in program order;
    - the values a callback reads from its enclosing render ([input],
      [isLoading], [error], [activeAccount]) are a separate record, the
      closure: a [set...] call changes the state, never the closure of the
      callback that is running;
    - the identity library, the network, the clock and the random source
      answer through an oracle record; every call to them is logged. *)

From Stdlib Require Import List NArith ZArith Bool Ascii String DecimalString Lia.
Import ListNotations.

Set Implicit Arguments.

(* ================================================================== *)
(** ** JavaScript strings and values *)
(* ================================================================== *)

Module JS.

(** A string is a sequence of 16-bit code units. *)
Definition jsstring := list N.

(** An ASCII literal of the source, as a JavaScript string. *)
Definition lit (s : string) : jsstring :=
  map N_of_ascii (list_ascii_of_string s).

Definition eqb (a b : jsstring) : bool :=
  if list_eq_dec N.eq_dec a b then true else false.

(** ECMAScript WhiteSpace and LineTerminator code points, the ones
    [String.prototype.trim] strips. All of them are in the BMP. *)
Definition isWhiteSpace (c : N) : bool :=
  ((c =? 0x09) || (c =? 0x0A) || (c =? 0x0B) || (c =? 0x0C) || (c =? 0x0D)
   || (c =? 0x20) || (c =? 0xA0) || (c =? 0x1680)
   || ((0x2000 <=? c) && (c <=? 0x200A))
   || (c =? 0x2028) || (c =? 0x2029) || (c =? 0x202F) || (c =? 0x205F)
   || (c =? 0x3000) || (c =? 0xFEFF))%N.

Fixpoint trimStart (s : jsstring) : jsstring :=
  match s with
  | [] => []
  | c :: rest => if isWhiteSpace c then trimStart rest else s
  end.

Definition trimEnd (s : jsstring) : jsstring := rev (trimStart (rev s)).

(** [s.trim()] *)
Definition trim (s : jsstring) : jsstring := trimEnd (trimStart s).

(** Truthiness of a string: only the empty string is falsy. *)
Definition truthy (s : jsstring) : bool :=
  match s with [] => false | _ :: _ => true end.

(** [String(n)] for a non-negative integer such as an HTTP status. *)
Definition numberToString (n : N) : jsstring :=
  lit (NilZero.string_of_uint (N.to_uint n)).

(** Values that reach the component at run time: what [response.json()]
    resolves to, and [undefined] for an absent property. A number is kept
    as the bit pattern of its double; the component never computes with
    it. An object is the list of its own properties. *)
#[local] Unset Elimination Schemes.

Inductive value : Type :=
| VUndefined
| VNull
| VBool (b : bool)
| VNumber (bits : Z)
| VString (s : jsstring)
| VArray (elems : list value)
| VObject (props : list (jsstring * value)).

#[local] Set Elimination Schemes.

Fixpoint lookup (key : jsstring) (props : list (jsstring * value))
  : option value :=
  match props with
  | [] => None
  | (k, v) :: rest => if eqb k key then Some v else lookup key rest
  end.

(** *** [JSON.stringify] on strings (QuoteJSONString) *)

Definition hexDigit (d : N) : N :=
  (if d <? 10 then 48 + d else 87 + d)%N.

(** [\uXXXX] with four lower-case hexadecimal digits. *)
Definition unicodeEscape (c : N) : jsstring :=
  [92; 117;
   hexDigit (N.shiftr c 12 mod 16); hexDigit (N.shiftr c 8 mod 16);
   hexDigit (N.shiftr c 4 mod 16); hexDigit (c mod 16)]%N.

Definition isLeadingSurrogate (c : N) : bool :=
  ((0xD800 <=? c) && (c <=? 0xDBFF))%N.
Definition isTrailingSurrogate (c : N) : bool :=
  ((0xDC00 <=? c) && (c <=? 0xDFFF))%N.

(** The escape of one code unit that is not part of a surrogate pair. *)
Definition quoteUnit (c : N) : jsstring :=
  (if c =? 0x08 then [92; 98]          (* \b *)
   else if c =? 0x09 then [92; 116]    (* \t *)
   else if c =? 0x0A then [92; 110]    (* \n *)
   else if c =? 0x0C then [92; 102]    (* \f *)
   else if c =? 0x0D then [92; 114]    (* \r *)
   else if c =? 0x22 then [92; 34]     (* \<quote> *)
   else if c =? 0x5C then [92; 92]     (* \\ *)
   else if (c <? 0x20) || isLeadingSurrogate c || isTrailingSurrogate c
        then unicodeEscape c
   else [c])%N.

Fixpoint quoteBody (s : jsstring) : jsstring :=
  match s with
  | [] => []
  | c :: rest =>
      match rest with
      | d :: rest' =>
          if isLeadingSurrogate c && isTrailingSurrogate d
          then c :: d :: quoteBody rest'
          else quoteUnit c ++ quoteBody rest
      | [] => quoteUnit c
      end
  end.

Definition quoteJSONString (s : jsstring) : jsstring :=
  [34%N] ++ quoteBody s ++ [34%N].

End JS.

Import JS.

Arguments lit : simpl never.
Arguments trim : simpl never.
Arguments numberToString : simpl never.
Arguments quoteJSONString : simpl never.

(* ================================================================== *)
(** ** The component: data, state, oracle *)
(* ================================================================== *)

Module ChatPage.

(** *** Data model ([interface Message], [interface ChatError]) *)

Inductive Role := user | assistant.

(** [content] is declared a string; the assistant's content is whatever
    [data.reply] evaluates to, so the field holds a run-time value. *)
Record Message := {
  id : jsstring;
  role : Role;
  content : value;
  timestamp : Z
}.

Inductive ErrorType := auth | server | network.

Record ChatError := {
  type : ErrorType;
  message : jsstring
}.

(** The account record of the identity library, as far as it is read. *)
Record AccountInfo := {
  username : jsstring;
  homeAccountId : jsstring
}.

(** *** React state of the component (the four [useState] cells) *)

Record State := {
  messages : list Message;
  input : jsstring;
  isLoading : bool;
  error : option ChatError
}.

(** The bindings a callback captures from the render that created it.
    [sendMessage] lists [input], [isLoading], [acquireToken] and [error] as
    dependencies; [acquireToken] captures [activeAccount]. *)
Record Closure := {
  c_input : jsstring;
  c_isLoading : bool;
  c_error : option ChatError;
  c_activeAccount : option AccountInfo
}.

(** *** Configuration ([authConfig]) *)

Record LoginRequest := { scopes : list jsstring }.

Definition loginRequest : LoginRequest :=
  {| scopes := [lit "openid"; lit "profile"; lit "email"] |}.

Record ApiConfig := { chatEndpoint : jsstring }.

Definition apiConfig : ApiConfig := {| chatEndpoint := lit "/chat" |}.

(** *** The outside world *)

(** A value thrown by a collaborator or by the component. The component
    only ever tests [instanceof InteractionRequiredAuthError]. *)
Inductive thrown :=
| InteractionRequiredAuthError (msg : jsstring)
| OtherError (msg : jsstring).

Definition isInteractionRequired (e : thrown) : bool :=
  match e with
  | InteractionRequiredAuthError _ => true
  | OtherError _ => false
  end.

(** Completion of a call: a value, or a thrown value (a rejected promise
    under [await]). *)
Inductive result (A : Type) :=
| Ok (a : A)
| Thrown (e : thrown).
Arguments Ok {A} a.
Arguments Thrown {A} e.

Record AuthenticationResult := { idToken : jsstring }.

Record Request := {
  url : jsstring;
  method : jsstring;
  headers : list (jsstring * jsstring);
  body : jsstring
}.

(** A response: its status and what [response.json()] settles to. *)
Record Response := {
  status : N;
  json : result value
}.

(** [response.ok]: the status is in the range 200-299. *)
Definition ok (r : Response) : bool :=
  ((200 <=? status r) && (status r <=? 299))%N.

(** What the collaborators answer. [randomUUID] and [now] are indexed by
    the number of earlier calls. *)
Record World := {
  accounts : list AccountInfo;
  acquireTokenSilent : LoginRequest -> AccountInfo -> result AuthenticationResult;
  acquireTokenPopup : LoginRequest -> result AuthenticationResult;
  fetch : Request -> result Response;
  randomUUID : nat -> jsstring;
  now : nat -> Z;
  origin : jsstring
}.

(** *** Effects, in program order *)

Inductive Event :=
| SetError (e : option ChatError)
| SetInput (s : jsstring)
| SetMessages
| SetIsLoading (b : bool)
| RandomUUID
| NewDate
| AcquireTokenSilent (req : LoginRequest) (account : AccountInfo)
| AcquireTokenPopup (req : LoginRequest)
| Fetch (req : Request)
| ResponseJson
| ConsoleError (label : jsstring)
| FocusInput
| PreventDefault
| LogoutRedirect (postLogoutRedirectUri : jsstring).

(** Token acquisition and the HTTP request are the network activity. *)
Definition isNetwork (ev : Event) : bool :=
  match ev with
  | AcquireTokenSilent _ _ | AcquireTokenPopup _ | Fetch _ | ResponseJson => true
  | _ => false
  end.

Definition isFetch (ev : Event) : bool :=
  match ev with Fetch _ => true | _ => false end.

(** The running component: its state, how many identifiers and dates
    were drawn, and the log of effects, each with the state right after. *)
Record Machine := {
  view : State;
  uuids : nat;
  dates : nat;
  trace : list (Event * State)
}.

Definition boot (s : State) : Machine :=
  {| view := s; uuids := 0; dates := 0; trace := [] |}.

(** *** The monad of callbacks: oracle, state, exceptions *)

Definition M (A : Type) : Type := World -> Machine -> result A * Machine.

Definition ret {A} (a : A) : M A := fun _ m => (Ok a, m).

Definition bind {A B} (c : M A) (k : A -> M B) : M B :=
  fun w m =>
    match c w m with
    | (Ok a, m') => k a w m'
    | (Thrown e, m') => (Thrown e, m')
    end.

Definition throw {A} (e : thrown) : M A := fun _ m => (Thrown e, m).

(** [try { body } catch (e) { handler e }] *)
Definition try_catch {A} (body : M A) (handler : thrown -> M A) : M A :=
  fun w m =>
    match body w m with
    | (Ok a, m') => (Ok a, m')
    | (Thrown e, m') => handler e w m'
    end.

(** [try { body } finally { fin }]: [fin] runs on every exit of [body]. *)
Definition try_finally {A} (body : M A) (fin : M unit) : M A :=
  fun w m =>
    match body w m with
    | (r, m') =>
        match fin w m' with
        | (Ok _, m'') => (r, m'')
        | (Thrown e, m'') => (Thrown e, m'')
        end
    end.

Declare Scope chat_scope.
Delimit Scope chat_scope with chat.
Notation "x <- c ;; k" := (bind c (fun x => k))
  (at level 61, c at next level, right associativity) : chat_scope.
Notation "c ;; k" := (bind c (fun _ => k))
  (at level 61, right associativity) : chat_scope.
Local Open Scope chat_scope.

(** One logged effect that rewrites the state with [f]. *)
Definition effect (ev : Event) (f : State -> State) : M unit :=
  fun _ m =>
    let s := f (view m) in
    (Ok tt, {| view := s; uuids := uuids m; dates := dates m;
               trace := trace m ++ [(ev, s)] |}).

(** One logged call to a collaborator, settled by the oracle. *)
Definition call {A} (ev : Event) (answer : World -> result A) : M A :=
  fun w m =>
    (answer w, {| view := view m; uuids := uuids m; dates := dates m;
                  trace := trace m ++ [(ev, view m)] |}).

(** The state setters returned by [useState]. *)
Definition setMessages (f : list Message -> list Message) : M unit :=
  effect SetMessages
    (fun s => {| messages := f (messages s); input := input s;
                 isLoading := isLoading s; error := error s |}).

Definition setInput (v : jsstring) : M unit :=
  effect (SetInput v)
    (fun s => {| messages := messages s; input := v;
                 isLoading := isLoading s; error := error s |}).

Definition setIsLoading (b : bool) : M unit :=
  effect (SetIsLoading b)
    (fun s => {| messages := messages s; input := input s;
                 isLoading := b; error := error s |}).

Definition setError (e : option ChatError) : M unit :=
  effect (SetError e)
    (fun s => {| messages := messages s; input := input s;
                 isLoading := isLoading s; error := e |}).

(** The platform and library calls of the component. *)
Definition crypto_randomUUID : M jsstring :=
  fun w m =>
    (Ok (randomUUID w (uuids m)),
     {| view := view m; uuids := S (uuids m); dates := dates m;
        trace := trace m ++ [(RandomUUID, view m)] |}).

Definition new_Date : M Z :=
  fun w m =>
    (Ok (now w (dates m)),
     {| view := view m; uuids := uuids m; dates := S (dates m);
        trace := trace m ++ [(NewDate, view m)] |}).

Definition instance_acquireTokenSilent (req : LoginRequest) (account : AccountInfo)
  : M AuthenticationResult :=
  call (AcquireTokenSilent req account) (fun w => acquireTokenSilent w req account).

Definition instance_acquireTokenPopup (req : LoginRequest)
  : M AuthenticationResult :=
  call (AcquireTokenPopup req) (fun w => acquireTokenPopup w req).

Definition window_fetch (req : Request) : M Response :=
  call (Fetch req) (fun w => fetch w req).

Definition response_json (r : Response) : M value :=
  call ResponseJson (fun _ => json r).

Definition console_error (label : jsstring) : M unit :=
  call (ConsoleError label) (fun _ => Ok tt).

Definition inputRef_focus : M unit :=
  call FocusInput (fun _ => Ok tt).

(** [data.reply]: a TypeError on [null] and [undefined], the property of
    an object when it has one, [undefined] in every other case. *)
Definition get_reply (data : value) : M value :=
  match data with
  | VUndefined | VNull =>
      throw (OtherError (lit "TypeError: Cannot read properties of null"))
  | VObject props =>
      match lookup (lit "reply") props with
      | Some v => ret v
      | None => ret VUndefined
      end
  | _ => ret VUndefined
  end.

(** [JSON.stringify({ prompt: trimmedInput })] *)
Definition JSON_stringify_prompt (trimmedInput : jsstring) : jsstring :=
  lit "{" ++ quoteJSONString (lit "prompt") ++ lit ":"
  ++ quoteJSONString trimmedInput ++ lit "}".

(** The arguments of the [fetch] call of [sendMessage]: the endpoint and
    the options object (method, headers, body). *)
Definition chatRequest (token trimmedInput : jsstring) : Request :=
  {| url := chatEndpoint apiConfig;
     method := lit "POST";
     headers := [(lit "Authorization", lit "Bearer " ++ token);
                 (lit "Content-Type", lit "application/json")];
     body := JSON_stringify_prompt trimmedInput |}.

(** Falsiness of [token : string | null]. *)
Definition truthy_token (token : option jsstring) : bool :=
  match token with
  | None => false
  | Some t => truthy t
  end.

(** *** The callbacks *)

(** [const activeAccount = accounts[0]] and the state cells, as a render
    binds them for the callbacks it creates. *)
Definition render (w : World) (s : State) : Closure :=
  {| c_input := input s;
     c_isLoading := isLoading s;
     c_error := error s;
     c_activeAccount := hd_error (accounts w) |}.

(** [acquireToken]: silent acquisition, interactive fallback. *)
Definition acquireToken (activeAccount : option AccountInfo)
  : M (option jsstring) :=
  match activeAccount with
  | None => ret None
  | Some account =>
      try_catch
        (response <- instance_acquireTokenSilent loginRequest account ;;
         ret (Some (idToken response)))
        (fun error =>
           if isInteractionRequired error then
             try_catch
               (response <- instance_acquireTokenPopup loginRequest ;;
                ret (Some (idToken response)))
               (fun popupError =>
                  console_error (lit "Token acquisition failed:") ;;
                  setError (Some {| type := auth;
                                    message := lit "Authentication failed. Please sign in again." |}) ;;
                  ret None)
           else
             (console_error (lit "Token acquisition error:") ;;
              ret None))
  end.

(** [sendMessage]. The guard and the [catch] block read [input],
    [isLoading] and [error] from the closure [c]; the setters write the
    state. The early [return] of the HTTP-error branch is the [then]
    branch of the test on [response.ok]. *)
Definition sendMessage (c : Closure) : M unit :=
  let trimmedInput := trim (c_input c) in
  if negb (truthy trimmedInput) || c_isLoading c then ret tt
  else
    setError None ;;
    setInput [] ;;
    uid <- crypto_randomUUID ;;
    ts <- new_Date ;;
    let userMessage :=
      {| id := uid; role := user; content := VString trimmedInput;
         timestamp := ts |} in
    setMessages (fun prev => prev ++ [userMessage]) ;;
    setIsLoading true ;;
    try_finally
      (try_catch
         (token <- acquireToken (c_activeAccount c) ;;
          if negb (truthy_token token) then
            throw (OtherError (lit "Failed to acquire authentication token"))
          else
            let tok := match token with Some t => t | None => [] end in
            response <- window_fetch (chatRequest tok trimmedInput) ;;
            if negb (ok response) then
              (if (status response =? 401)%N then
                 setError (Some {| type := auth;
                                   message := lit "Session expired. Please sign in again." |})
               else if (status response =? 403)%N then
                 setError (Some {| type := auth;
                                   message := lit "Access denied. You don't have permission to use this service." |})
               else if (status response =? 500)%N then
                 setError (Some {| type := server;
                                   message := lit "Server error. Please try again later." |})
               else
                 setError (Some {| type := server;
                                   message := lit "Request failed with status "
                                              ++ numberToString (status response) |}))
            else
              data <- response_json response ;;
              aid <- crypto_randomUUID ;;
              reply <- get_reply data ;;
              ats <- new_Date ;;
              let assistantMessage :=
                {| id := aid; role := assistant; content := reply;
                   timestamp := ats |} in
              setMessages (fun prev => prev ++ [assistantMessage]))
         (fun err =>
            console_error (lit "Chat error:") ;;
            match c_error c with
            | None =>
                setError (Some {| type := network;
                                  message := lit "Network error. Please check your connection." |})
            | Some _ => ret tt
            end))
      (setIsLoading false ;;
       inputRef_focus).

(** [handleKeyDown]: Enter without Shift sends. *)
Definition handleKeyDown (c : Closure) (key : jsstring) (shiftKey : bool)
  : M unit :=
  if JS.eqb key (lit "Enter") && negb shiftKey then
    call PreventDefault (fun _ => Ok tt) ;;
    sendMessage c
  else ret tt.

(** [handleLogout] *)
Definition handleLogout : M unit :=
  fun w m =>
    call (LogoutRedirect (origin w)) (fun _ => Ok tt) w m.

(** The [onChange] handler of the input field. *)
Definition onChange (targetValue : jsstring) : M unit :=
  setInput targetValue.

(** The operations a user can trigger on the rendered view. *)
Inductive Operation :=
| ClickSend
| KeyDown (key : jsstring) (shiftKey : bool)
| Change (targetValue : jsstring)
| ClickSignOut.

Definition perform (op : Operation) (c : Closure) : M unit :=
  match op with
  | ClickSend => sendMessage c
  | KeyDown key shiftKey => handleKeyDown c key shiftKey
  | Change v => onChange v
  | ClickSignOut => handleLogout
  end.

(** Running a callback as the render of the current state bound it. *)
Definition dispatch {A} (p : Closure -> M A) (w : World) (m : Machine)
  : result A * Machine :=
  p (render w (view m)) w m.

(** The same from state [s] and a fresh log. *)
Definition run {A} (p : Closure -> M A) (w : World) (s : State)
  : result A * Machine :=
  dispatch p w (boot s).

(** The states the component went through: [s], then the state after
    each effect. *)
Definition history (s : State) (m : Machine) : list State :=
  s :: map snd (trace m).

Definition events (m : Machine) : list Event := map fst (trace m).

End ChatPage.

Import ChatPage.
Local Open Scope chat_scope.

Arguments JSON_stringify_prompt : simpl never.
Arguments chatRequest : simpl never.

(* ================================================================== *)
(** ** Vocabulary of the statements *)
(* ================================================================== *)

(** *** Growth of the transcript *)

(** One update of the state leaves the transcript alone or puts exactly
    one message at its end. *)
Definition appendStep (a b : State) : Prop :=
  messages b = messages a \/ exists msg, messages b = messages a ++ [msg].

(** Every state of [l] follows from the one before by [appendStep],
    starting from [s]. *)
Fixpoint appendChain (s : State) (l : list State) : Prop :=
  match l with
  | [] => True
  | s' :: l' => appendStep s s' /\ appendChain s' l'
  end.

(** A callback is append-only when, from any machine, the effects it adds
    to the log form such a chain and the state it ends in is the last one
    logged. *)
Definition AppendOnly {A} (p : M A) : Prop :=
  forall w m,
  exists tr,
    trace (snd (p w m)) = trace m ++ tr
    /\ appendChain (view m) (map snd tr)
    /\ view (snd (p w m)) = last (map snd tr) (view m).

(** *** Errors and the log *)

(** The machine [m] after the calls [evs], none of which touched the
    state. *)
Definition logged (m : Machine) (evs : list Event) : Machine :=
  {| view := view m; uuids := uuids m; dates := dates m;
     trace := trace m ++ map (fun ev => (ev, view m)) evs |}.

(** The error [acquireToken] records when the interactive prompt fails. *)
Definition authenticationFailed : ChatError :=
  {| type := auth;
     message := lit "Authentication failed. Please sign in again." |}.

Definition withError (s : State) (e : option ChatError) : State :=
  {| messages := messages s; input := input s; isLoading := isLoading s;
     error := e |}.

(** The error of the [catch] block. *)
Definition networkError : ChatError :=
  {| type := network;
     message := lit "Network error. Please check your connection." |}.

(** *** Outcomes of token acquisition *)

(** In the world [w], token acquisition for the account of the closure
    [c] returns [r], whatever the state of the view. *)
Definition acquires (c : Closure) (w : World) (r : option jsstring) : Prop :=
  forall m, fst (acquireToken (c_activeAccount c) w m) = Ok r.

Definition isAcquisition (ev : Event) : bool :=
  match ev with
  | AcquireTokenSilent _ _ | AcquireTokenPopup _ => true
  | _ => false
  end.

(** The outcomes of [acquireToken], one per path through it. *)
Inductive Acquisition (c : Closure) (w : World) (m : Machine)
  : option jsstring -> Machine -> Prop :=
| AcqNoAccount :
    c_activeAccount c = None ->
    Acquisition c w m None m
| AcqSilent a resp :
    c_activeAccount c = Some a ->
    acquireTokenSilent w loginRequest a = Ok resp ->
    Acquisition c w m (Some (idToken resp))
      (logged m [AcquireTokenSilent loginRequest a])
| AcqPopup a e resp :
    c_activeAccount c = Some a ->
    acquireTokenSilent w loginRequest a = Thrown e ->
    isInteractionRequired e = true ->
    acquireTokenPopup w loginRequest = Ok resp ->
    Acquisition c w m (Some (idToken resp))
      (logged m [AcquireTokenSilent loginRequest a;
                 AcquireTokenPopup loginRequest])
| AcqPopupFails a e e' :
    c_activeAccount c = Some a ->
    acquireTokenSilent w loginRequest a = Thrown e ->
    isInteractionRequired e = true ->
    acquireTokenPopup w loginRequest = Thrown e' ->
    Acquisition c w m None
      {| view := withError (view m) (Some authenticationFailed);
         uuids := uuids m; dates := dates m;
         trace := trace m
                  ++ [(AcquireTokenSilent loginRequest a, view m);
                      (AcquireTokenPopup loginRequest, view m);
                      (ConsoleError (lit "Token acquisition failed:"), view m);
                      (SetError (Some authenticationFailed),
                       withError (view m) (Some authenticationFailed))] |}
| AcqSilentFails a e :
    c_activeAccount c = Some a ->
    acquireTokenSilent w loginRequest a = Thrown e ->
    isInteractionRequired e = false ->
    Acquisition c w m None
      (logged m [AcquireTokenSilent loginRequest a;
                 ConsoleError (lit "Token acquisition error:")]).

(** *** Sequences of user actions *)

(** The user types [text] into the view, then submits. *)
Definition typeAndSend (text : jsstring) (w : World) (m : Machine) : Machine :=
  snd (dispatch sendMessage w
         (snd (dispatch (fun _ => onChange text) w m))).

(* ================================================================== *)
(** ** Concrete worlds and states *)
(* ================================================================== *)

Module Scenario.

Definition ann : AccountInfo :=
  {| username := lit "ann@example.org"; homeAccountId := lit "0001" |}.

(** A world whose collaborators give fixed answers. *)
Definition world (accts : list AccountInfo)
  (silent popup : result AuthenticationResult) (http : result Response)
  : World :=
  {| accounts := accts;
     acquireTokenSilent := fun _ _ => silent;
     acquireTokenPopup := fun _ => popup;
     fetch := fun _ => http;
     randomUUID := fun k => lit "msg-" ++ numberToString (N.of_nat k);
     now := fun k => (1700000000000 + Z.of_nat k)%Z;
     origin := lit "https://app.example.org" |}.

Definition token : result AuthenticationResult :=
  Ok {| idToken := lit "tok" |}.

Definition interactionRequired : result AuthenticationResult :=
  Thrown (InteractionRequiredAuthError (lit "interaction_required")).

Definition failure {A} : result A := Thrown (OtherError (lit "failed")).

Definition respond (code : N) (payload : result value) : result Response :=
  Ok {| status := code; json := payload |}.

(** The body [{ reply: hello }]. *)
Definition hello : result value :=
  Ok (VObject [(lit "reply", VString (lit "hello"))]).

(** The user typed [  hi  ] into an idle view with an empty transcript. *)
Definition fresh : State :=
  {| messages := []; input := lit "  hi  "; isLoading := false;
     error := None |}.

Definition blank : State :=
  {| messages := []; input := lit "   "; isLoading := false; error := None |}.

Definition busy : State :=
  {| messages := []; input := lit "hi"; isLoading := true; error := None |}.

Definition happy : World := world [ann] token failure (respond 200 hello).
Definition teapot : World := world [ann] token failure (respond 418 failure).
Definition offline : World := world [ann] token failure failure.
Definition signedOut : World := world [] token failure (respond 200 hello).
Definition promptFails : World :=
  world [ann] interactionRequired failure (respond 200 hello).
Definition promptWorks : World :=
  world [ann] interactionRequired token (respond 200 hello).
Definition silentBroken : World :=
  world [ann] failure token (respond 200 hello).

Definition hiMessage (k : nat) : Message :=
  {| id := lit "msg-" ++ numberToString (N.of_nat k); role := user;
     content := VString (lit "hi");
     timestamp := (1700000000000 + Z.of_nat k)%Z |}.

End Scenario.

Import Scenario.

(* ================================================================== *)
(** ** The rest of the view *)
(* ================================================================== *)

(** [disabled={!input.trim() || isLoading}] of the send button. *)
Definition sendButtonDisabled (c : Closure) : bool :=
  negb (truthy (trim (c_input c))) || c_isLoading c.

(** [disabled={isLoading}] of the input field. *)
Definition inputDisabled (c : Closure) : bool := c_isLoading c.



(** *** Reading the log *)

Fixpoint beforeFirst {T} (p : T -> bool) (l : list T) : list T :=
  match l with
  | [] => []
  | x :: rest => if p x then [] else x :: beforeFirst p rest
  end.

Fixpoint fromFirst {T} (p : T -> bool) (l : list T) : list T :=
  match l with
  | [] => []
  | x :: rest => if p x then l else fromFirst p rest
  end.

Definition raisesFlag (es : Event * State) : bool :=
  match fst es with SetIsLoading true => true | _ => false end.

Definition clearsFlag (es : Event * State) : bool :=
  match fst es with SetIsLoading false => true | _ => false end.

(** The effects from [setIsLoading(true)] up to, and without,
    [setIsLoading(false)]. *)
Definition inFlight (tr : list (Event * State)) : list (Event * State) :=
  beforeFirst clearsFlag (fromFirst raisesFlag tr).

(** *** Invariants of a session *)



(** *** Reading a JSON string back *)

Definition unhexDigit (h : N) : N :=
  (if h <? 58 then h - 48 else h - 87)%N.

(** Undoes [quoteBody]; only used to show that quoting loses nothing. *)
Fixpoint unquoteBody (q : jsstring) : jsstring :=
  match q with
  | [] => []
  | c :: rest =>
      if (c =? 92)%N then
        match rest with
        | e :: rest' =>
            if (e =? 117)%N then
              match rest' with
              | h1 :: h2 :: h3 :: h4 :: rest'' =>
                  (4096 * unhexDigit h1 + 256 * unhexDigit h2
                   + 16 * unhexDigit h3 + unhexDigit h4)%N
                  :: unquoteBody rest''
              | _ => q
              end
            else
              (if e =? 98 then 8
               else if e =? 116 then 9
               else if e =? 110 then 10
               else if e =? 102 then 12
               else if e =? 114 then 13
               else e)%N :: unquoteBody rest'
        | [] => q
        end
      else c :: unquoteBody rest
  end.

(** *** More worlds *)

Module Scenario2.

(** The identity library hands out an empty identity token. *)
Definition emptyToken : World :=
  world [ann] (Ok {| idToken := [] |}) failure (respond 200 hello).

(** The backend answers with an object that has no [reply]. *)
Definition noReply : World :=
  world [ann] token failure
    (respond 200 (Ok (VObject [(lit "answer", VString (lit "hello"))]))).



End Scenario2.

Import Scenario2.

(* ================================================================== *)
(** ** The root component and the router *)
(* ================================================================== *)

Module App.

(** The event types of the identity library, as far as the component
    tells them apart. *)
Inductive EventType :=
| LOGIN_SUCCESS
| OtherEventType (name : jsstring).

(** [event.payload as AuthenticationResult]: only [account] is read. *)
Record Payload := { account : option AccountInfo }.

Record EventMessage := {
  eventType : EventType;
  payload : option Payload
}.

(** What the identity library answers to the calls of the component. *)
Record World := {
  initialize : result unit;
  handleRedirectPromise : result unit;
  getAllAccounts : result (list AccountInfo);
  setActiveAccount : option AccountInfo -> result unit;
  addEventCallback : result unit
}.

Inductive Event :=
| Initialize
| HandleRedirectPromise
| GetAllAccounts
| SetActiveAccount (a : option AccountInfo)
| AddEventCallback
| ConsoleError (label : jsstring)
| SetIsInitialized (b : bool).

(** The [useState] cell of the component and the log of its effects. *)
Record Machine := {
  isInitialized : bool;
  calls : list Event
}.

Definition P (A : Type) : Type := World -> Machine -> result A * Machine.

Definition ret {A} (a : A) : P A := fun _ m => (Ok a, m).

Definition bind {A B} (c : P A) (k : A -> P B) : P B :=
  fun w m =>
    match c w m with
    | (Ok a, m') => k a w m'
    | (Thrown e, m') => (Thrown e, m')
    end.

Definition try_catch {A} (body : P A) (handler : thrown -> P A) : P A :=
  fun w m =>
    match body w m with
    | (Ok a, m') => (Ok a, m')
    | (Thrown e, m') => handler e w m'
    end.

Declare Scope app_scope.
Delimit Scope app_scope with app.
Notation "x <- c ;; k" := (bind c (fun x => k))
  (at level 61, c at next level, right associativity) : app_scope.
Notation "c ;; k" := (bind c (fun _ => k))
  (at level 61, right associativity) : app_scope.
Local Open Scope app_scope.

Definition call {A} (ev : Event) (answer : World -> result A) : P A :=
  fun w m =>
    (answer w, {| isInitialized := isInitialized m;
                  calls := calls m ++ [ev] |}).

Definition setIsInitialized (b : bool) : P unit :=
  fun _ m => (Ok tt, {| isInitialized := b;
                        calls := calls m ++ [SetIsInitialized b] |}).

Definition msalInstance_setActiveAccount (a : option AccountInfo) : P unit :=
  call (SetActiveAccount a) (fun w => setActiveAccount w a).

(** The callback given to [addEventCallback]. *)
Definition loginCallback (event : EventMessage) : P unit :=
  match eventType event, payload event with
  | LOGIN_SUCCESS, Some p => msalInstance_setActiveAccount (account p)
  | _, _ => ret tt
  end.

(** [initializeMsal], the body of the mount effect. *)
Definition initializeMsal : P unit :=
  try_catch
    (call Initialize initialize ;;
     call HandleRedirectPromise handleRedirectPromise ;;
     accounts <- call GetAllAccounts getAllAccounts ;;
     match accounts with
     | first :: _ => msalInstance_setActiveAccount (Some first)
     | [] => ret tt
     end ;;
     call AddEventCallback addEventCallback ;;
     setIsInitialized true)
    (fun error =>
       call (ConsoleError (lit "MSAL initialization failed:")) (fun _ => Ok tt) ;;
       setIsInitialized true).

(** The interaction status of the identity library. *)
Inductive InteractionStatus :=
| Startup | Login | Logout | AcquireToken | SsoSilent | HandleRedirect
| None_.

Inductive Screen :=
| Spinner          (* the root's loader while MSAL initializes *)
| Authenticating   (* the router's loader *)
| ChatPage
| LoginPage.

(** [Index]: the router. *)
Definition Index (inProgress : InteractionStatus) (isAuthenticated : bool)
  : Screen :=
  match inProgress with
  | None_ => if isAuthenticated then ChatPage else LoginPage
  | _ => Authenticating
  end.

(** [App], on the route of [Index]. *)
Definition App (initialized : bool) (inProgress : InteractionStatus)
  (isAuthenticated : bool) : Screen :=
  if negb initialized then Spinner
  else Index inProgress isAuthenticated.

Definition isSetIsInitialized (ev : Event) : bool :=
  match ev with SetIsInitialized _ => true | _ => false end.

Definition isSetActiveAccount (ev : Event) : bool :=
  match ev with SetActiveAccount _ => true | _ => false end.

End App.

Module AuthConfig.

(** [LogLevel] of the identity library. *)
Inductive LogLevel := Error | Warning | Info | Verbose | Trace.

Inductive ConsoleCall :=
| console_error (message : jsstring)
| console_warn (message : jsstring)
| console_info (message : jsstring)
| console_debug (message : jsstring).

(** [loggerCallback]: the console calls one invocation makes. *)
Definition loggerCallback (level : LogLevel) (message : jsstring)
  (containsPii : bool) : list ConsoleCall :=
  if containsPii then []
  else
    match level with
    | Error => [console_error message]
    | Warning => [console_warn message]
    | Info => [console_info message]
    | Verbose => [console_debug message]
    | Trace => []
    end.

Definition text (c : ConsoleCall) : jsstring :=
  match c with
  | console_error m | console_warn m | console_info m | console_debug m => m
  end.

End AuthConfig.


(* ================================================================== *)
(** ** Basic facts about strings *)
(* ================================================================== *)

Lemma truthy_nonempty (s : jsstring) : truthy s = true <-> s <> [].
Proof.
  destruct s; simpl; split; intro H; try congruence; try easy.
Qed.

Lemma trimStart_whitespace (s : jsstring) :
  forallb isWhiteSpace s = true -> trimStart s = [].
Proof.
  induction s as [|c s IH]; simpl; [reflexivity|].
  intro H. apply andb_true_iff in H as [Hc Hs].
  rewrite Hc. now apply IH.
Qed.

(** Whitespace-only input trims to the empty string. *)
Lemma trim_whitespace (s : jsstring) :
  forallb isWhiteSpace s = true -> trim s = [].
Proof.
  intro H. unfold trim, trimEnd.
  now rewrite (trimStart_whitespace s H).
Qed.

Lemma trimStart_empty (s : jsstring) :
  trimStart s = [] -> forallb isWhiteSpace s = true.
Proof.
  induction s as [|c s IH]; simpl; [reflexivity|].
  destruct (isWhiteSpace c); [exact IH | discriminate].
Qed.

(** What [trimStart] leaves starts with a character that is not
    whitespace. *)
Lemma trimStart_head (s : jsstring) (c : N) (t : jsstring) :
  trimStart s = c :: t -> isWhiteSpace c = false.
Proof.
  induction s as [|d s IH]; simpl; [discriminate|].
  destruct (isWhiteSpace d) eqn:Hd; [exact IH|].
  intro E. injection E as <- _. exact Hd.
Qed.

(** The trimmed text is empty exactly for the empty and the
    whitespace-only inputs. *)
Lemma trim_empty_iff (s : jsstring) :
  trim s = [] <-> forallb isWhiteSpace s = true.
Proof.
  split; [|apply trim_whitespace].
  unfold trim, trimEnd. intro H.
  assert (Hrev : trimStart (rev (trimStart s)) = []).
  { rewrite <- (rev_involutive (trimStart (rev (trimStart s)))).
    now rewrite H. }
  apply trimStart_empty in Hrev.
  destruct (trimStart s) as [|c t] eqn:E; [now apply trimStart_empty|].
  apply trimStart_head in E.
  assert (Hc : isWhiteSpace c = true).
  { apply (proj1 (forallb_forall isWhiteSpace (rev (c :: t))) Hrev).
    apply in_rev. rewrite rev_involutive. now left. }
  congruence.
Qed.

Example trim_strips_both_ends : trim (lit "  hi  ") = lit "hi".
Proof. reflexivity. Qed.

Example trim_keeps_inner_whitespace :
  trim ([9; 10; 0xA0; 0xFEFF]%N ++ lit "a b" ++ [0x2028; 13; 32]%N)
  = lit "a b".
Proof. reflexivity. Qed.

(** The quote, the backslash and the control characters are escaped,
    a lone surrogate becomes a [\u] escape, a surrogate pair is kept. *)
Example quoteJSONString_escapes :
  quoteJSONString ([34; 92; 10; 0x1F; 0xD800; 0xD83D; 0xDE00; 0x7F]%N)
  = [34%N] ++ lit "\" ++ [34%N] ++ lit "\\\n\u001f\ud800"
    ++ [0xD83D; 0xDE00; 0x7F; 34]%N.
Proof. reflexivity. Qed.

Example stringify_prompt_hi :
  JSON_stringify_prompt (lit "hi")
  = lit "{" ++ [34%N] ++ lit "prompt" ++ [34%N] ++ lit ":"
    ++ [34%N] ++ lit "hi" ++ [34%N] ++ lit "}".
Proof. reflexivity. Qed.

Example status_418_as_text : numberToString 418 = lit "418".
Proof. reflexivity. Qed.

(* ================================================================== *)
(** ** The guard of [sendMessage] *)
(* ================================================================== *)

Lemma guard_rejects (c : Closure) :
  trim (c_input c) = [] \/ c_isLoading c = true ->
  negb (truthy (trim (c_input c))) || c_isLoading c = true.
Proof.
  intros [H|H]; rewrite H; simpl; [reflexivity | apply orb_true_r].
Qed.

Lemma guard_accepts (c : Closure) :
  trim (c_input c) <> [] -> c_isLoading c = false ->
  negb (truthy (trim (c_input c))) || c_isLoading c = false.
Proof.
  intros H1 H2. apply truthy_nonempty in H1. now rewrite H1, H2.
Qed.

(** C5. A submission whose input is empty or whitespace-only after
    trimming, or one made while a send is in flight (the rendered
    [isLoading] is true), returns at once: the state of the view
    (transcript, input field, error, in-flight flag), the log of effects
    and the counters are all exactly as before, so no token acquisition and
    no HTTP request took place. *)
Theorem rejected_send_changes_nothing (c : Closure) (w : World) (m : Machine) :
  trim (c_input c) = [] \/ c_isLoading c = true ->
  sendMessage c w m = (Ok tt, m).
Proof.
  intro H. unfold sendMessage.
  now rewrite (guard_rejects c H).
Qed.

(* ================================================================== *)
(** ** The transcript only grows *)
(* ================================================================== *)

Lemma last_default_irrelevant {T} (l : list T) (d d' : T) :
  l <> [] -> last l d = last l d'.
Proof.
  induction l as [|x l IH]; intro H; [congruence|].
  destruct l as [|y l]; [reflexivity|].
  change (last (y :: l) d = last (y :: l) d'). apply IH. discriminate.
Qed.

Lemma last_cons_default {T} (x : T) (l : list T) (d : T) :
  last (x :: l) d = last l x.
Proof.
  destruct l as [|y l]; [reflexivity|].
  change (last (y :: l) d = last (y :: l) x).
  apply last_default_irrelevant. discriminate.
Qed.

Lemma last_app_default {T} (l1 l2 : list T) (d : T) :
  last (l1 ++ l2) d = last l2 (last l1 d).
Proof.
  revert d. induction l1 as [|x l1 IH]; intro d; [reflexivity|].
  rewrite <- app_comm_cons, !last_cons_default. apply IH.
Qed.

Lemma appendChain_app (s : State) (l1 l2 : list State) :
  appendChain s l1 -> appendChain (last l1 s) l2 -> appendChain s (l1 ++ l2).
Proof.
  revert s. induction l1 as [|x l1 IH]; intros s H1 H2; [exact H2|].
  destruct H1 as [Hx H1]. split; [exact Hx|].
  apply IH; [exact H1|]. now rewrite last_cons_default in H2.
Qed.

(** Along a chain the first transcript stays a prefix of every later one:
    nothing is removed, rewritten or reordered. *)
Lemma appendChain_prefix (s : State) (l : list State) :
  appendChain s l ->
  forall st, In st l -> exists added, messages st = messages s ++ added.
Proof.
  revert s. induction l as [|x l IH]; intros s H st Hin; [destruct Hin|].
  destruct H as [Hx H]. destruct Hin as [<-|Hin].
  - destruct Hx as [E|[msg E]]; rewrite E.
    + exists []. now rewrite app_nil_r.
    + now exists [msg].
  - destruct (IH x H st Hin) as [added E]. rewrite E.
    destruct Hx as [E'|[msg E']]; rewrite E'.
    + now exists added.
    + exists (msg :: added). now rewrite <- app_assoc.
Qed.

Lemma appendChain_last (s : State) (l : list State) :
  appendChain s l -> exists added, messages (last l s) = messages s ++ added.
Proof.
  revert s. induction l as [|x l IH]; intros s H.
  - exists []. simpl. now rewrite app_nil_r.
  - destruct H as [Hx H]. rewrite last_cons_default.
    destruct (IH x H) as [added E]. rewrite E.
    destruct Hx as [E'|[msg E']]; rewrite E'.
    + now exists added.
    + exists (msg :: added). now rewrite <- app_assoc.
Qed.

(** *** The combinators preserve the property *)

Lemma AppendOnly_ret {A} (a : A) : AppendOnly (ret a).
Proof.
  intros w m. exists []. simpl. now rewrite app_nil_r.
Qed.

Lemma AppendOnly_throw {A} (e : thrown) : AppendOnly (@throw A e).
Proof.
  intros w m. exists []. simpl. now rewrite app_nil_r.
Qed.

(** Sequencing two runs on the level of their added logs. *)
Lemma AppendOnly_seq (m0 m1 m2 : Machine) (tr1 tr2 : list (Event * State)) :
  trace m1 = trace m0 ++ tr1 ->
  appendChain (view m0) (map snd tr1) ->
  view m1 = last (map snd tr1) (view m0) ->
  trace m2 = trace m1 ++ tr2 ->
  appendChain (view m1) (map snd tr2) ->
  view m2 = last (map snd tr2) (view m1) ->
  trace m2 = trace m0 ++ (tr1 ++ tr2)
  /\ appendChain (view m0) (map snd (tr1 ++ tr2))
  /\ view m2 = last (map snd (tr1 ++ tr2)) (view m0).
Proof.
  intros T1 C1 V1 T2 C2 V2. rewrite map_app. repeat split.
  - now rewrite T2, T1, app_assoc.
  - apply appendChain_app; [exact C1|]. now rewrite <- V1.
  - now rewrite last_app_default, <- V1.
Qed.

Lemma AppendOnly_bind {A B} (c : M A) (k : A -> M B) :
  AppendOnly c -> (forall a, AppendOnly (k a)) -> AppendOnly (bind c k).
Proof.
  intros Hc Hk w m. unfold bind.
  destruct (Hc w m) as [tr1 [T1 [C1 V1]]].
  destruct (c w m) as [[a|e] m1]; simpl in *.
  - destruct (Hk a w m1) as [tr2 [T2 [C2 V2]]].
    exists (tr1 ++ tr2). now apply (AppendOnly_seq m m1).
  - now exists tr1.
Qed.

Lemma AppendOnly_try_catch {A} (body : M A) (handler : thrown -> M A) :
  AppendOnly body -> (forall e, AppendOnly (handler e)) ->
  AppendOnly (try_catch body handler).
Proof.
  intros Hb Hh w m. unfold try_catch.
  destruct (Hb w m) as [tr1 [T1 [C1 V1]]].
  destruct (body w m) as [[a|e] m1]; simpl in *.
  - now exists tr1.
  - destruct (Hh e w m1) as [tr2 [T2 [C2 V2]]].
    exists (tr1 ++ tr2). now apply (AppendOnly_seq m m1).
Qed.

Lemma AppendOnly_try_finally {A} (body : M A) (fin : M unit) :
  AppendOnly body -> AppendOnly fin -> AppendOnly (try_finally body fin).
Proof.
  intros Hb Hf w m. unfold try_finally.
  destruct (Hb w m) as [tr1 [T1 [C1 V1]]].
  destruct (body w m) as [r m1]; simpl in *.
  destruct (Hf w m1) as [tr2 [T2 [C2 V2]]].
  exists (tr1 ++ tr2).
  destruct (fin w m1) as [[u|e] m2]; simpl in *;
    now apply (AppendOnly_seq m m1).
Qed.

Lemma AppendOnly_effect (ev : Event) (f : State -> State) :
  (forall s, appendStep s (f s)) -> AppendOnly (effect ev f).
Proof.
  intros Hf w m. exists [(ev, f (view m))]. simpl.
  repeat split. apply Hf.
Qed.

Lemma AppendOnly_call {A} (ev : Event) (answer : World -> result A) :
  AppendOnly (call ev answer).
Proof.
  intros w m. exists [(ev, view m)]. simpl.
  repeat split. now left.
Qed.

(** *** The setters and calls of the component *)

Lemma AppendOnly_setError e : AppendOnly (setError e).
Proof. apply AppendOnly_effect. intro s. now left. Qed.

Lemma AppendOnly_setInput v : AppendOnly (setInput v).
Proof. apply AppendOnly_effect. intro s. now left. Qed.

Lemma AppendOnly_setIsLoading b : AppendOnly (setIsLoading b).
Proof. apply AppendOnly_effect. intro s. now left. Qed.

(** The only updater ever passed to [setMessages] is
    [prev => [...prev, msg]]. *)
Lemma AppendOnly_setMessages_append msg :
  AppendOnly (setMessages (fun prev => prev ++ [msg])).
Proof. apply AppendOnly_effect. intro s. right. now exists msg. Qed.

Lemma AppendOnly_randomUUID : AppendOnly crypto_randomUUID.
Proof.
  intros w m. exists [(RandomUUID, view m)]. simpl. repeat split. now left.
Qed.

Lemma AppendOnly_new_Date : AppendOnly new_Date.
Proof.
  intros w m. exists [(NewDate, view m)]. simpl. repeat split. now left.
Qed.

Create HintDb append_only.
#[local] Hint Resolve AppendOnly_ret AppendOnly_throw AppendOnly_call
  AppendOnly_setError AppendOnly_setInput AppendOnly_setIsLoading
  AppendOnly_setMessages_append AppendOnly_randomUUID AppendOnly_new_Date
  : append_only.

(** Follows the shape of a callback: sequencing, handlers, branches. *)
Ltac append_only :=
  repeat first
    [ progress auto with append_only
    | apply AppendOnly_bind; [|intro]
    | apply AppendOnly_try_catch; [|intro]
    | apply AppendOnly_try_finally
    | match goal with
      | |- AppendOnly (if ?b then _ else _) => destruct b
      | |- AppendOnly (match ?x with _ => _ end) => destruct x
      end ].

Lemma AppendOnly_acquireToken account : AppendOnly (acquireToken account).
Proof.
  unfold acquireToken, instance_acquireTokenSilent,
    instance_acquireTokenPopup, console_error.
  append_only.
Qed.

Lemma AppendOnly_get_reply data : AppendOnly (get_reply data).
Proof. unfold get_reply. append_only. Qed.

#[local] Hint Resolve AppendOnly_acquireToken AppendOnly_get_reply
  : append_only.

Lemma AppendOnly_sendMessage c : AppendOnly (sendMessage c).
Proof.
  unfold sendMessage, window_fetch, response_json, console_error,
    inputRef_focus.
  append_only.
Qed.

Lemma AppendOnly_perform op c : AppendOnly (perform op c).
Proof.
  destruct op; simpl.
  - apply AppendOnly_sendMessage.
  - unfold handleKeyDown. append_only. apply AppendOnly_sendMessage.
  - apply AppendOnly_setInput.
  - intros w m. apply AppendOnly_call.
Qed.

(* ================================================================== *)
(** ** Token acquisition *)
(* ================================================================== *)

Section AcquireToken.

Variable w : World.
Variable m : Machine.

Lemma acquireToken_no_account :
  acquireToken None w m = (Ok None, m).
Proof. reflexivity. Qed.

Variable a : AccountInfo.

Lemma acquireToken_silent_ok resp :
  acquireTokenSilent w loginRequest a = Ok resp ->
  acquireToken (Some a) w m
  = (Ok (Some (idToken resp)), logged m [AcquireTokenSilent loginRequest a]).
Proof.
  intro H. unfold acquireToken, try_catch, bind, instance_acquireTokenSilent, call.
  now rewrite H.
Qed.

Lemma acquireToken_popup_ok e resp :
  acquireTokenSilent w loginRequest a = Thrown e ->
  isInteractionRequired e = true ->
  acquireTokenPopup w loginRequest = Ok resp ->
  acquireToken (Some a) w m
  = (Ok (Some (idToken resp)),
     logged m [AcquireTokenSilent loginRequest a; AcquireTokenPopup loginRequest]).
Proof.
  intros H1 H2 H3.
  unfold acquireToken, try_catch, bind, instance_acquireTokenSilent,
    instance_acquireTokenPopup, call.
  rewrite H1, H2. simpl. rewrite H3. unfold logged. simpl.
  now rewrite <- app_assoc.
Qed.

Lemma acquireToken_popup_fails e e' :
  acquireTokenSilent w loginRequest a = Thrown e ->
  isInteractionRequired e = true ->
  acquireTokenPopup w loginRequest = Thrown e' ->
  acquireToken (Some a) w m
  = (Ok None,
     {| view := withError (view m) (Some authenticationFailed);
        uuids := uuids m; dates := dates m;
        trace := trace m
                 ++ [(AcquireTokenSilent loginRequest a, view m);
                     (AcquireTokenPopup loginRequest, view m);
                     (ConsoleError (lit "Token acquisition failed:"), view m);
                     (SetError (Some authenticationFailed),
                      withError (view m) (Some authenticationFailed))] |}).
Proof.
  intros H1 H2 H3.
  unfold acquireToken, try_catch, bind, instance_acquireTokenSilent,
    instance_acquireTokenPopup, console_error, setError, effect, call.
  rewrite H1, H2. simpl. rewrite H3. simpl.
  now rewrite <- !app_assoc.
Qed.

Lemma acquireToken_silent_fails e :
  acquireTokenSilent w loginRequest a = Thrown e ->
  isInteractionRequired e = false ->
  acquireToken (Some a) w m
  = (Ok None,
     logged m [AcquireTokenSilent loginRequest a;
               ConsoleError (lit "Token acquisition error:")]).
Proof.
  intros H1 H2.
  unfold acquireToken, try_catch, bind, instance_acquireTokenSilent,
    console_error, call.
  rewrite H1, H2. unfold logged. simpl.
  now rewrite <- app_assoc.
Qed.

End AcquireToken.

(** C7. With an active account, [acquireToken] first attempts silent
    acquisition and returns its token when that succeeds; when silent
    acquisition fails because interaction is required it attempts the
    interactive (popup) acquisition and returns its token when that
    succeeds; when the popup fails too it records the authentication-class
    error and returns none; any other silent failure gives none with the
    state, and so the error, left as it was. *)
Theorem acquireToken_silent_then_interactive
  (a : AccountInfo) (w : World) (s : State) :
  let r := acquireToken (Some a) w (boot s) in
  let silent := AcquireTokenSilent loginRequest a in
  let popup := AcquireTokenPopup loginRequest in
  (forall resp,
      acquireTokenSilent w loginRequest a = Ok resp ->
      fst r = Ok (Some (idToken resp))
      /\ events (snd r) = [silent]
      /\ view (snd r) = s)
  /\ (forall e resp,
      acquireTokenSilent w loginRequest a = Thrown e ->
      isInteractionRequired e = true ->
      acquireTokenPopup w loginRequest = Ok resp ->
      fst r = Ok (Some (idToken resp))
      /\ events (snd r) = [silent; popup]
      /\ view (snd r) = s)
  /\ (forall e e',
      acquireTokenSilent w loginRequest a = Thrown e ->
      isInteractionRequired e = true ->
      acquireTokenPopup w loginRequest = Thrown e' ->
      fst r = Ok None
      /\ events (snd r)
         = [silent; popup; ConsoleError (lit "Token acquisition failed:");
            SetError (Some {| type := auth;
                              message := lit "Authentication failed. Please sign in again." |})]
      /\ view (snd r)
         = {| messages := messages s; input := input s;
              isLoading := isLoading s;
              error := Some {| type := auth;
                               message := lit "Authentication failed. Please sign in again." |} |})
  /\ (forall e,
      acquireTokenSilent w loginRequest a = Thrown e ->
      isInteractionRequired e = false ->
      fst r = Ok None
      /\ events (snd r)
         = [silent; ConsoleError (lit "Token acquisition error:")]
      /\ view (snd r) = s).
Proof.
  intros r silent popup. subst r. split; [|split; [|split]].
  - intros resp Hs.
    rewrite (acquireToken_silent_ok w (boot s) a Hs). now repeat split.
  - intros e resp Hs He Hp.
    rewrite (acquireToken_popup_ok w (boot s) a Hs He Hp). now repeat split.
  - intros e e' Hs He Hp.
    rewrite (acquireToken_popup_fails w (boot s) a Hs He Hp). now repeat split.
  - intros e Hs He.
    rewrite (acquireToken_silent_fails w (boot s) a Hs He). now repeat split.
Qed.

(** [acquireToken] never throws, and its outcome is one of the five. *)
Lemma acquireToken_outcome (c : Closure) (w : World) (m : Machine) :
  exists r m',
    acquireToken (c_activeAccount c) w m = (Ok r, m')
    /\ Acquisition c w m r m'.
Proof.
  destruct (c_activeAccount c) as [a|] eqn:Ha.
  - destruct (acquireTokenSilent w loginRequest a) as [resp|e] eqn:Hs.
    + eexists _, _. split;
        [apply acquireToken_silent_ok, Hs | eapply AcqSilent; eassumption].
    + destruct (isInteractionRequired e) eqn:He.
      * destruct (acquireTokenPopup w loginRequest) as [resp|e'] eqn:Hp.
        -- eexists _, _. split;
             [apply (acquireToken_popup_ok w m a Hs He Hp)
             | eapply AcqPopup; eassumption].
        -- eexists _, _. split;
             [apply (acquireToken_popup_fails w m a Hs He Hp)
             | eapply AcqPopupFails; eassumption].
      * eexists _, _. split;
          [apply (acquireToken_silent_fails w m a Hs He)
          | eapply AcqSilentFails; eassumption].
  - exists None, m. split; [reflexivity | now apply AcqNoAccount].
Qed.

Lemma acquires_outcome (c : Closure) (w : World) (r : option jsstring)
  (m : Machine) :
  acquires c w r ->
  exists m', acquireToken (c_activeAccount c) w m = (Ok r, m')
             /\ Acquisition c w m r m'.
Proof.
  intro H. destruct (acquireToken_outcome c w m) as [r' [m' [E A]]].
  specialize (H m). rewrite E in H. simpl in H.
  injection H as ->. now exists m'.
Qed.

(** With a token in hand the state is untouched and the log grew by
    acquisition calls only. *)
Lemma acquisition_token (c : Closure) (w : World) (m m' : Machine) tok :
  Acquisition c w m (Some tok) m' ->
  exists evs, m' = logged m evs /\ forallb isAcquisition evs = true.
Proof.
  intro A. inversion A; subst; eexists; split; reflexivity.
Qed.

(* ================================================================== *)
(** ** The send-message cycle *)
(* ================================================================== *)

(** Opens the [try] block of an accepted send and runs the token
    acquisition the hypothesis [acquires] describes. *)
Ltac enter_try :=
  unfold try_finally, try_catch, bind;
  match goal with
  | Hacq : acquires ?c ?w ?r
    |- context [acquireToken (c_activeAccount ?c) ?w ?m1] =>
      let m' := fresh "m'" in
      let E := fresh "E" in
      let A := fresh "A" in
      destruct (acquires_outcome m1 Hacq) as [m' [E A]]; rewrite E
  end.

(** Runs an accepted send up to the [fetch] call, for a truthy token. *)
Ltac send_with_token H1 H2 Htok :=
  unfold sendMessage; rewrite (guard_accepts _ H1 H2);
  cbn; enter_try;
  match goal with
  | A : Acquisition _ _ _ (Some _) _ |- _ =>
      let evs := fresh "evs" in
      let Hevs := fresh "Hevs" in
      destruct (acquisition_token A) as [evs [-> Hevs]]; clear A
  end;
  apply truthy_nonempty in Htok; cbn; rewrite Htok; cbn;
  unfold window_fetch, call.

(** C1. For every accepted send that obtains a token and receives a
    non-success HTTP response, the error recorded at the end depends on the
    status code alone: 401 gives the authentication-class error with the
    session-expired text, 403 the authentication-class error with the
    access-denied text, 500 the server-class error with the generic server
    text, and every other non-success status the server-class error whose
    message ends in the decimal status code. In all four cases the
    transcript ends as the old transcript plus the user's message: no
    assistant message is appended. *)
Theorem http_error_status_decides_error
  (c : Closure) (w : World) (s : State) (tok : jsstring) (r : Response) :
  trim (c_input c) <> [] ->
  c_isLoading c = false ->
  acquires c w (Some tok) ->
  tok <> [] ->
  fetch w (chatRequest tok (trim (c_input c))) = Ok r ->
  ok r = false ->
  let m := snd (sendMessage c w (boot s)) in
  let userMessage :=
    {| id := randomUUID w 0; role := user;
       content := VString (trim (c_input c)); timestamp := now w 0 |} in
  (status r = 401%N ->
     error (view m)
     = Some {| type := auth;
               message := lit "Session expired. Please sign in again." |})
  /\ (status r = 403%N ->
     error (view m)
     = Some {| type := auth;
               message := lit "Access denied. You don't have permission to use this service." |})
  /\ (status r = 500%N ->
     error (view m)
     = Some {| type := server;
               message := lit "Server error. Please try again later." |})
  /\ (status r <> 401%N -> status r <> 403%N -> status r <> 500%N ->
     error (view m)
     = Some {| type := server;
               message := lit "Request failed with status "
                          ++ numberToString (status r) |})
  /\ messages (view m) = messages s ++ [userMessage].
Proof.
  intros H1 H2 Hacq Htok Hfetch Hok.
  send_with_token H1 H2 Htok.
  rewrite Hfetch, Hok. cbn.
  destruct (status r =? 401)%N eqn:E401;
    [|destruct (status r =? 403)%N eqn:E403;
      [|destruct (status r =? 500)%N eqn:E500]];
    cbn;
    repeat match goal with
           | H : (_ =? _)%N = true |- _ => apply N.eqb_eq in H
           | H : (_ =? _)%N = false |- _ => apply N.eqb_neq in H
           end;
    repeat split; intros; try congruence.
Qed.

(** C6. For every accepted send that obtains a token and receives a
    success response whose JSON body is an object with a [reply] property,
    the transcript ends as the old transcript, the user's message, and
    exactly one assistant-role message whose content is the value of that
    property; and the in-flight flag is false at the end. *)
Theorem success_appends_reply
  (c : Closure) (w : World) (s : State) (tok : jsstring) (r : Response)
  (props : list (jsstring * value)) (reply : value) :
  trim (c_input c) <> [] ->
  c_isLoading c = false ->
  acquires c w (Some tok) ->
  tok <> [] ->
  fetch w (chatRequest tok (trim (c_input c))) = Ok r ->
  ok r = true ->
  json r = Ok (VObject props) ->
  lookup (lit "reply") props = Some reply ->
  let m := snd (sendMessage c w (boot s)) in
  let userMessage :=
    {| id := randomUUID w 0; role := user;
       content := VString (trim (c_input c)); timestamp := now w 0 |} in
  let assistantMessage :=
    {| id := randomUUID w 1; role := assistant;
       content := reply; timestamp := now w 1 |} in
  messages (view m) = messages s ++ [userMessage; assistantMessage]
  /\ isLoading (view m) = false.
Proof.
  intros H1 H2 Hacq Htok Hfetch Hok Hjson Hreply.
  send_with_token H1 H2 Htok.
  rewrite Hfetch, Hok. cbn.
  unfold response_json, call. rewrite Hjson. cbn. rewrite Hreply. cbn.
  rewrite <- app_assoc. now split.
Qed.

Lemma acquisition_events_no_fetch (st : State) (evs : list Event) :
  forallb isAcquisition evs = true ->
  filter isFetch (map fst (map (fun ev => (ev, st)) evs)) = [].
Proof.
  induction evs as [|ev evs IH]; [reflexivity|].
  simpl. intro H. apply andb_true_iff in H as [Hev Hevs].
  destruct ev; simpl in *; try discriminate; now apply IH.
Qed.

(** C8. For every accepted send that reaches the network step with a
    token, the log holds exactly one HTTP request, whatever happens to it
    afterwards: a POST to the configured endpoint [/chat], with header
    Authorization set to [Bearer ] followed by the token, header
    Content-Type set to [application/json], and as body the JSON text of
    the object whose single property [prompt] is the trimmed input. *)
Theorem one_post_request_per_send
  (c : Closure) (w : World) (s : State) (tok : jsstring) :
  trim (c_input c) <> [] ->
  c_isLoading c = false ->
  acquires c w (Some tok) ->
  tok <> [] ->
  let m := snd (sendMessage c w (boot s)) in
  filter isFetch (events m)
  = [Fetch {| url := lit "/chat";
              method := lit "POST";
              headers := [(lit "Authorization", lit "Bearer " ++ tok);
                          (lit "Content-Type", lit "application/json")];
              body := lit "{" ++ quoteJSONString (lit "prompt") ++ lit ":"
                      ++ quoteJSONString (trim (c_input c)) ++ lit "}" |}].
Proof.
  intros H1 H2 Hacq Htok.
  send_with_token H1 H2 Htok.
  destruct (fetch w _) as [r|e]; cbn;
    [destruct (ok r); cbn;
     [unfold response_json, call; destruct (json r) as [data|e]; cbn;
      [unfold get_reply; destruct data as [| | | | | |props]; cbn;
       try destruct (lookup _ props); cbn|]
     |destruct (status r =? 401)%N;
      [|destruct (status r =? 403)%N; [|destruct (status r =? 500)%N]]; cbn]
    |];
    try destruct (c_error c); cbn;
    unfold events; cbn; repeat rewrite map_app; repeat rewrite filter_app; cbn;
    rewrite acquisition_events_no_fetch by assumption;
    reflexivity.
Qed.

(** Case analysis on everything that can happen from the [fetch] call
    on: the response, its status, its body, the captured error. *)
Ltac after_fetch w c :=
  repeat match goal with
  | |- context [fetch w ?q] => destruct (fetch w q); cbn
  | |- context [if negb (ok ?r) then _ else _] => destruct (ok r); cbn
  | |- context [json ?r] => destruct (json r); cbn
  | |- context [get_reply ?d] => unfold get_reply; destruct d; cbn
  | |- context [lookup ?k ?p] => destruct (lookup k p); cbn
  | |- context [(status ?r =? ?n)%N] => destruct (status r =? n)%N; cbn
  | |- context [match c_error c with _ => _ end] => destruct (c_error c); cbn
  end.

(** Every path of an accepted send, down to a fully evaluated machine. *)
Ltac all_paths c w H1 H2 :=
  unfold sendMessage; rewrite (guard_accepts c H1 H2); cbn;
  unfold try_finally, try_catch, bind;
  match goal with
  | |- context [acquireToken (c_activeAccount c) w ?m1] =>
      let r := fresh "r" in
      let m' := fresh "m'" in
      let E := fresh "E" in
      let A := fresh "A" in
      destruct (acquireToken_outcome c w m1) as [r [m' [E A]]];
      rewrite E; inversion A; subst; clear E; cbn
  end;
  try match goal with
      | |- context [truthy ?t] => destruct (truthy t) eqn:?; cbn
      end;
  unfold window_fetch, response_json, call;
  after_fetch w c.

(** Whenever a send calls the identity library or the network, the state
    already shows the cleared error, the cleared input and the user's
    message at the end of the transcript. *)
Lemma network_sees_user_message (c : Closure) (w : World) (s : State) :
  trim (c_input c) <> [] ->
  c_isLoading c = false ->
  let userMessage :=
    {| id := randomUUID w 0; role := user;
       content := VString (trim (c_input c)); timestamp := now w 0 |} in
  Forall (fun es => isNetwork (fst es) = true ->
                    snd es = {| messages := messages s ++ [userMessage];
                                input := []; isLoading := true;
                                error := None |})
         (trace (snd (sendMessage c w (boot s)))).
Proof.
  intros H1 H2.
  all_paths c w H1 H2.
  all: repeat (apply Forall_cons;
               [cbn; intro; try discriminate; try reflexivity|]).
  all: apply Forall_nil.
Qed.

(** C4. For every input whose trimmed text is non-empty, submitted while
    no send is in flight, the first effects of the send are, in this
    order: the error is cleared, the input field is cleared, and (after
    drawing an identifier and a date) exactly one user-role message whose
    content is the trimmed input is put at the end of the transcript; then
    the in-flight flag is raised. Everything else, and so every token
    acquisition and HTTP request, comes after these: at each such call the
    state already has no error, an empty input and the old transcript
    followed by the user's message. In every later state, and in the final
    one, the transcript still starts with the old transcript followed by
    that message, whatever the outcome of the attempt. *)
Theorem user_message_precedes_network (c : Closure) (w : World) (s : State) :
  trim (c_input c) <> [] ->
  c_isLoading c = false ->
  let m := snd (sendMessage c w (boot s)) in
  let userMessage :=
    {| id := randomUUID w 0; role := user;
       content := VString (trim (c_input c)); timestamp := now w 0 |} in
  let st ms i l e :=
    {| messages := ms; input := i; isLoading := l; error := e |} in
  exists rest,
    trace m
    = [(SetError None, st (messages s) (input s) (isLoading s) None);
       (SetInput [], st (messages s) [] (isLoading s) None);
       (RandomUUID, st (messages s) [] (isLoading s) None);
       (NewDate, st (messages s) [] (isLoading s) None);
       (SetMessages, st (messages s ++ [userMessage]) [] (isLoading s) None);
       (SetIsLoading true, st (messages s ++ [userMessage]) [] true None)]
      ++ rest
    /\ Forall (fun es => isNetwork (fst es) = true ->
                         snd es = st (messages s ++ [userMessage]) [] true None)
         (trace m)
    /\ Forall (fun es => exists later,
                   messages (snd es) = messages s ++ userMessage :: later)
         rest
    /\ exists later, messages (view m) = messages s ++ userMessage :: later.
Proof.
  intros H1 H2 m userMessage st. subst m.
  pose proof (network_sees_user_message c w s H1 H2) as Hnet.
  cbv zeta in Hnet. revert Hnet.
  unfold sendMessage. rewrite (guard_accepts c H1 H2). cbn.
  match goal with
  | |- context [try_finally ?b ?f w ?m1] =>
      assert (AO : AppendOnly (try_finally b f))
        by (unfold window_fetch, response_json, console_error, inputRef_focus;
            append_only);
      destruct (AO w m1) as [tr [T [C V]]]
  end.
  cbn [trace view] in T, C, V.
  intro Hnet. exists tr. rewrite T, V.
  split; [reflexivity|]. split; [rewrite <- T; exact Hnet|]. split.
  - apply Forall_forall. intros [ev st'] Hin.
    destruct (appendChain_prefix _ _ C st') as [added E].
    + apply in_map_iff. now exists (ev, st').
    + exists added. cbn [snd messages] in *. now rewrite E, <- app_assoc.
  - destruct (appendChain_last _ _ C) as [added E].
    exists added. cbn [messages] in E. now rewrite E, <- app_assoc.
Qed.

(** What the [catch] block leaves behind when no token was obtained: it
    tests the [error] of the closure, the one of the render in which the
    send was submitted. *)
Lemma send_without_token_error (c : Closure) (w : World) (s : State) :
  trim (c_input c) <> [] ->
  c_isLoading c = false ->
  acquires c w None ->
  let m := snd (sendMessage c w (boot s)) in
  match c_error c with
  | None => error (view m) = Some networkError
  | Some _ =>
      error (view m) = None \/ error (view m) = Some authenticationFailed
  end.
Proof.
  intros H1 H2 Hacq.
  unfold sendMessage. rewrite (guard_accepts c H1 H2). cbn. enter_try.
  inversion A; subst; cbn; destruct (c_error c); cbn; auto.
Qed.

(** C2, as the code has it. For every accepted send in which token
    acquisition returns none, no HTTP request is issued and the in-flight
    flag is false at the end. When acquisition recorded no error of its
    own (there is no active account, or silent acquisition failed for a
    reason other than interaction-required) and no error was showing when
    the send was submitted, the error recorded at the end of the attempt is
    the network-class error of the [catch] block. *)
Theorem send_without_token_makes_no_request
  (c : Closure) (w : World) (s : State) :
  trim (c_input c) <> [] ->
  c_isLoading c = false ->
  acquires c w None ->
  let m := snd (sendMessage c w (boot s)) in
  filter isFetch (events m) = []
  /\ isLoading (view m) = false
  /\ ((c_activeAccount c = None
       \/ exists a e, c_activeAccount c = Some a
                      /\ acquireTokenSilent w loginRequest a = Thrown e
                      /\ isInteractionRequired e = false) ->
      c_error c = None ->
      error (view m)
      = Some {| type := network;
                message := lit "Network error. Please check your connection." |}).
Proof.
  intros H1 H2 Hacq.
  unfold sendMessage. rewrite (guard_accepts c H1 H2). cbn. enter_try.
  inversion A; subst; cbn; destruct (c_error c) eqn:Herr; cbn;
    (split; [reflexivity|]); (split; [reflexivity|]);
    intros Hpath Hnone; try discriminate; reflexivity.
Qed.

(* ================================================================== *)
(** ** Concrete runs *)
(* ================================================================== *)

(** The input [  hi  ] passes the guard. *)
Lemma fresh_accepted (w : World) :
  trim (c_input (render w fresh)) <> []
  /\ c_isLoading (render w fresh) = false.
Proof. split; [vm_compute; discriminate | reflexivity]. Defined.

(** Silent acquisition succeeds for [ann]. *)
Lemma token_acquired accts popup http :
  acquires (render (world (ann :: accts) token popup http) fresh)
           (world (ann :: accts) token popup http) (Some (lit "tok")).
Proof. intro m. reflexivity. Defined.

(** C5 at a whitespace-only input and at a view with a send in flight. *)
Lemma rejected_send_changes_nothing_witness :
  sendMessage (render happy blank) happy (boot blank) = (Ok tt, boot blank)
  /\ sendMessage (render happy busy) happy (boot busy) = (Ok tt, boot busy).
Proof.
  split.
  - apply (@rejected_send_changes_nothing (render happy blank) happy (boot blank)).
    left. reflexivity.
  - apply (@rejected_send_changes_nothing (render happy busy) happy (boot busy)).
    right. reflexivity.
Defined.

(** C1 at status 418: the message carries the literal code. *)
Lemma http_error_status_decides_error_witness :
  error (view (snd (run sendMessage teapot fresh)))
  = Some {| type := server; message := lit "Request failed with status 418" |}
  /\ messages (view (snd (run sendMessage teapot fresh))) = [hiMessage 0].
Proof.
  destruct (@http_error_status_decides_error
              (render teapot fresh) teapot fresh (lit "tok")
              {| status := 418; json := failure |}
              (proj1 (fresh_accepted teapot)) (proj2 (fresh_accepted teapot))
              (token_acquired [] failure (respond 418 failure))
              ltac:(vm_compute; discriminate) eq_refl eq_refl)
    as [_ [_ [_ [H418 Hmsgs]]]].
  split.
  - apply H418; vm_compute; discriminate.
  - exact Hmsgs.
Defined.

(** C6 at the body whose [reply] is [hello]. *)
Lemma success_appends_reply_witness :
  messages (view (snd (run sendMessage happy fresh)))
  = [hiMessage 0;
     {| id := lit "msg-1"; role := assistant; content := VString (lit "hello");
        timestamp := 1700000000001%Z |}]
  /\ isLoading (view (snd (run sendMessage happy fresh))) = false.
Proof.
  exact (@success_appends_reply
           (render happy fresh) happy fresh (lit "tok")
           {| status := 200; json := hello |}
           [(lit "reply", VString (lit "hello"))]
           (VString (lit "hello"))
           (proj1 (fresh_accepted happy)) (proj2 (fresh_accepted happy))
           (token_acquired [] failure (respond 200 hello))
           ltac:(vm_compute; discriminate) eq_refl eq_refl eq_refl eq_refl).
Defined.

(** C8 at the input [  hi  ] and the token [tok], with the network down. *)
Lemma one_post_request_per_send_witness :
  filter isFetch (events (snd (run sendMessage offline fresh)))
  = [Fetch {| url := lit "/chat";
              method := lit "POST";
              headers := [(lit "Authorization", lit "Bearer tok");
                          (lit "Content-Type", lit "application/json")];
              body := lit "{" ++ [34%N] ++ lit "prompt" ++ [34%N] ++ lit ":"
                      ++ [34%N] ++ lit "hi" ++ [34%N] ++ lit "}" |}].
Proof.
  exact (@one_post_request_per_send
           (render offline fresh) offline fresh (lit "tok")
           (proj1 (fresh_accepted offline)) (proj2 (fresh_accepted offline))
           (token_acquired [] failure failure)
           ltac:(vm_compute; discriminate)).
Defined.

(** C4 at the input [  hi  ]. *)
Lemma user_message_precedes_network_witness :
  exists later,
    messages (view (snd (run sendMessage happy fresh))) = hiMessage 0 :: later.
Proof.
  destruct (@user_message_precedes_network
              (render happy fresh) happy fresh
              (proj1 (fresh_accepted happy)) (proj2 (fresh_accepted happy)))
    as [rest [_ [_ [_ [later E]]]]].
  exists later. exact E.
Defined.

(** C7 in four worlds, one per outcome. *)
Lemma acquireToken_silent_then_interactive_witness :
  acquireToken (Some ann) happy (boot fresh)
    = (Ok (Some (lit "tok")),
       logged (boot fresh) [AcquireTokenSilent loginRequest ann])
  /\ fst (acquireToken (Some ann) promptWorks (boot fresh))
     = Ok (Some (lit "tok"))
  /\ (fst (acquireToken (Some ann) promptFails (boot fresh)) = Ok None
      /\ error (view (snd (acquireToken (Some ann) promptFails (boot fresh))))
         = Some authenticationFailed)
  /\ (fst (acquireToken (Some ann) silentBroken (boot fresh)) = Ok None
      /\ view (snd (acquireToken (Some ann) silentBroken (boot fresh)))
         = fresh).
Proof.
  split; [reflexivity|]. split; [|split].
  - destruct (acquireToken_silent_then_interactive ann promptWorks fresh)
      as [_ [H _]].
    exact (proj1 (H _ _ eq_refl eq_refl eq_refl)).
  - destruct (acquireToken_silent_then_interactive ann promptFails fresh)
      as [_ [_ [H _]]].
    destruct (H _ _ eq_refl eq_refl eq_refl) as [Hr [_ Hv]].
    split; [exact Hr|]. now rewrite Hv.
  - destruct (acquireToken_silent_then_interactive ann silentBroken fresh)
      as [_ [_ [_ H]]].
    destruct (H _ eq_refl eq_refl) as [Hr [_ Hv]].
    split; [exact Hr | exact Hv].
Defined.

(** C2, as stated, fails: with no active account and no error showing,
    token acquisition returns none, and the error recorded at the end of
    the attempt is the network-class one, not an authentication-class
    one. *)
Lemma missing_token_records_network_error :
  acquires (render signedOut fresh) signedOut None
  /\ trim (input fresh) <> []
  /\ isLoading fresh = false
  /\ error (view (snd (run sendMessage signedOut fresh)))
     = Some {| type := network;
               message := lit "Network error. Please check your connection." |}
  /\ ~ (exists e, error (view (snd (run sendMessage signedOut fresh))) = Some e
                  /\ type e = auth).
Proof.
  split; [intro m; reflexivity|].
  split; [vm_compute; discriminate|].
  split; [reflexivity|].
  split; [reflexivity|].
  intros [e [E T]]. vm_compute in E. injection E as <-. discriminate T.
Qed.

(** C2 as amended, at a view without an account. *)
Lemma send_without_token_makes_no_request_witness :
  filter isFetch (events (snd (run sendMessage signedOut fresh))) = []
  /\ isLoading (view (snd (run sendMessage signedOut fresh))) = false
  /\ error (view (snd (run sendMessage signedOut fresh))) = Some networkError.
Proof.
  destruct (@send_without_token_makes_no_request
              (render signedOut fresh) signedOut fresh
              (proj1 (fresh_accepted signedOut))
              (proj2 (fresh_accepted signedOut))
              (fun m => eq_refl))
    as [Hfetch [Hload Herr]].
  split; [exact Hfetch|]. split; [exact Hload|].
  apply Herr; [left|]; reflexivity.
Defined.

(** C3 on the code. First run: the interactive prompt fails, so
    [acquireToken] records the authentication error during the attempt;
    the [catch] block then tests the error of the closure, which is still
    the absent one of the render, and overwrites it with the network
    error. Second run: the network is down twice in a row; the first
    attempt records the network error, and in the second attempt, where the
    closure holds that error, the exception is thrown again and nothing is
    recorded: the view ends without any error. *)
Theorem catch_block_reads_stale_error :
  (let m := snd (run sendMessage promptFails fresh) in
   events m
   = [SetError None; SetInput []; RandomUUID; NewDate; SetMessages;
      SetIsLoading true;
      AcquireTokenSilent loginRequest ann; AcquireTokenPopup loginRequest;
      ConsoleError (lit "Token acquisition failed:");
      SetError (Some authenticationFailed);
      ConsoleError (lit "Chat error:");
      SetError (Some networkError);
      SetIsLoading false; FocusInput]
   /\ error (view m) = Some networkError)
  /\
  (let m1 := snd (run sendMessage offline fresh) in
   let m2 := typeAndSend (lit "again") offline m1 in
   error (view m1) = Some networkError
   /\ error (view m2) = None
   /\ filter isFetch (events m2)
      = [Fetch (chatRequest (lit "tok") (lit "hi"));
         Fetch (chatRequest (lit "tok") (lit "again"))]
   /\ isLoading (view m2) = false).
Proof.
  split; [split; reflexivity|].
  repeat split; reflexivity.
Qed.

(** C10 on the code. Without an active account [acquireToken] returns
    none at once, with the state and the log untouched. A first send in
    that state ends with the network error of the [catch] block; a second
    send, submitted while that error is showing, makes no network call and
    ends with no error at all: the [catch] block saw the error of the
    closure and recorded nothing. *)
Theorem no_account_second_send_records_nothing :
  (forall w m, acquireToken None w m = (Ok None, m))
  /\
  (let m1 := snd (run sendMessage signedOut fresh) in
   let m2 := typeAndSend (lit "again") signedOut m1 in
   error (view m1) = Some networkError
   /\ existsb isNetwork (events m1) = false
   /\ error (view m2) = None
   /\ existsb isNetwork (events m2) = false
   /\ events m2
      = events m1
        ++ [SetInput (lit "again");
            SetError None; SetInput []; RandomUUID; NewDate; SetMessages;
            SetIsLoading true;
            ConsoleError (lit "Chat error:");
            SetIsLoading false; FocusInput]).
Proof.
  split; [exact acquireToken_no_account|].
  repeat split; reflexivity.
Qed.

(* ================================================================== *)
(** ** Further properties of the send cycle *)
(* ================================================================== *)

Lemma last_or_nil {T} (l : list T) :
  l = [] \/ exists l' x, l = l' ++ [x].
Proof.
  destruct l as [|y l]; [now left|]. right.
  destruct (@exists_last _ (y :: l)) as [l' [x E]]; [discriminate|].
  now exists l', x.
Qed.

Lemma finally_settles {A} (body : M A) (w : World) (m : Machine) :
  let r := try_finally body (setIsLoading false ;; inputRef_focus) w m in
  let mb := snd (body w m) in
  let final :=
    {| messages := messages (view mb); input := input (view mb);
       isLoading := false; error := error (view mb) |} in
  fst r = fst (body w m)
  /\ view (snd r) = final
  /\ trace (snd r)
     = trace mb ++ [(SetIsLoading false, final); (FocusInput, final)].
Proof.
  unfold try_finally. destruct (body w m) as [rb mb]. cbn.
  rewrite <- app_assoc. repeat split.
Qed.

(** X1. [sendMessage] never throws, whatever the identity library and the
    network do. When the send is accepted, the in-flight flag is false at
    the end and the last two effects are [setIsLoading(false)] and the
    focus of the input field. *)
Theorem sendMessage_always_settles (c : Closure) (w : World) (m : Machine) :
  let r := sendMessage c w m in
  fst r = Ok tt
  /\ (trim (c_input c) <> [] -> c_isLoading c = false ->
      isLoading (view (snd r)) = false
      /\ exists earlier,
           trace (snd r)
           = earlier ++ [(SetIsLoading false, view (snd r));
                         (FocusInput, view (snd r))]).
Proof.
  cbv zeta. unfold sendMessage.
  destruct (negb (truthy (trim (c_input c))) || c_isLoading c) eqn:G.
  - split; [reflexivity|]. intros H1 H2.
    rewrite (guard_accepts c H1 H2) in G. discriminate.
  - cbn.
    match goal with
    | |- context [try_finally ?b ?f w ?m1] =>
        destruct (finally_settles b w m1) as [R [V T]]
    end.
    rewrite R, V, T.
    split.
    + unfold try_catch.
      match goal with
      | |- fst (match ?b with _ => _ end) = _ => destruct b as [[[]|e] mb]
      end; [reflexivity|].
      destruct (c_error c); reflexivity.
    + intros _ _. split; [reflexivity|].
      eexists. reflexivity.
Qed.

(** How an accepted send ends, from any machine: with the user's message
    alone, or with the user's message and the assistant's. *)
Lemma send_outcome (c : Closure) (w : World) (m : Machine) :
  trim (c_input c) <> [] ->
  c_isLoading c = false ->
  let m' := snd (sendMessage c w m) in
  let userMessage :=
    {| id := randomUUID w (uuids m); role := user;
       content := VString (trim (c_input c)); timestamp := now w (dates m) |} in
  isLoading (view m') = false
  /\ ((messages (view m') = messages (view m) ++ [userMessage]
       /\ (uuids m' = S (uuids m) \/ uuids m' = S (S (uuids m)))
       /\ (c_error c = None -> error (view m') <> None))
      \/ (exists reply,
            messages (view m')
            = messages (view m)
              ++ [userMessage;
                  {| id := randomUUID w (S (uuids m)); role := assistant;
                     content := reply; timestamp := now w (S (dates m)) |}]
            /\ uuids m' = S (S (uuids m))
            /\ error (view m') = None)).
Proof.
  intros H1 H2.
  all_paths c w H1 H2.
  all: split; [reflexivity|].
  all: first
    [ left; split; [reflexivity|]; split; [auto|]; intros; discriminate
    | right; eexists; rewrite <- app_assoc; repeat split ].
Qed.

(** X2. An accepted send submitted while no error is showing ends in one
    of two ways: the transcript grew by the user's message alone and an
    error is recorded, or it grew by the user's message and one assistant
    message and no error is recorded. *)
Theorem send_ends_with_reply_or_error (c : Closure) (w : World) (s : State) :
  trim (c_input c) <> [] ->
  c_isLoading c = false ->
  c_error c = None ->
  let m := snd (sendMessage c w (boot s)) in
  let userMessage :=
    {| id := randomUUID w 0; role := user;
       content := VString (trim (c_input c)); timestamp := now w 0 |} in
  (messages (view m) = messages s ++ [userMessage]
   /\ exists e, error (view m) = Some e)
  \/ (exists reply,
        messages (view m)
        = messages s
          ++ [userMessage;
              {| id := randomUUID w 1; role := assistant;
                 content := reply; timestamp := now w 1 |}]
        /\ error (view m) = None).
Proof.
  intros H1 H2 Herr.
  destruct (@send_outcome c w (boot s) H1 H2)
    as [_ [[Em [_ He]] | [reply [Em [_ He]]]]].
  - left. split; [exact Em|].
    destruct (error (view (snd (sendMessage c w (boot s))))) as [e|];
      [now exists e | now contradiction (He Herr)].
  - right. now exists reply.
Qed.

(** X3. A success response whose JSON body is not [null] and has no
    [reply] property (an object without it, a number, a string, a boolean,
    an array) still appends an assistant message; its content is
    [undefined], and no error is recorded. *)
Theorem reply_missing_appends_undefined
  (c : Closure) (w : World) (s : State) (tok : jsstring) (r : Response)
  (data : value) :
  trim (c_input c) <> [] ->
  c_isLoading c = false ->
  acquires c w (Some tok) ->
  tok <> [] ->
  fetch w (chatRequest tok (trim (c_input c))) = Ok r ->
  ok r = true ->
  json r = Ok data ->
  data <> VNull -> data <> VUndefined ->
  (forall props, data = VObject props -> lookup (lit "reply") props = None) ->
  let m := snd (sendMessage c w (boot s)) in
  messages (view m)
  = messages s
    ++ [{| id := randomUUID w 0; role := user;
           content := VString (trim (c_input c)); timestamp := now w 0 |};
        {| id := randomUUID w 1; role := assistant;
           content := VUndefined; timestamp := now w 1 |}]
  /\ error (view m) = None.
Proof.
  intros H1 H2 Hacq Htok Hfetch Hok Hjson Hnull Hundef Hreply.
  send_with_token H1 H2 Htok.
  rewrite Hfetch, Hok. cbn.
  unfold response_json, call. rewrite Hjson. cbn.
  destruct data as [| | | | | |props]; try congruence; cbn;
    try rewrite (Hreply props eq_refl); cbn;
    rewrite <- app_assoc; now split.
Qed.

(** X4. When, with a token in hand and no error showing at submission,
    [fetch] rejects, or the success response's body fails to parse or
    parses to [null], the transcript ends with the user's message only, the
    network-class error is recorded and the in-flight flag is false. *)
Theorem exception_after_token_records_network_error
  (c : Closure) (w : World) (s : State) (tok : jsstring) :
  trim (c_input c) <> [] ->
  c_isLoading c = false ->
  acquires c w (Some tok) ->
  tok <> [] ->
  c_error c = None ->
  ((exists e, fetch w (chatRequest tok (trim (c_input c))) = Thrown e)
   \/ (exists r, fetch w (chatRequest tok (trim (c_input c))) = Ok r
                 /\ ok r = true
                 /\ ((exists e, json r = Thrown e) \/ json r = Ok VNull))) ->
  let m := snd (sendMessage c w (boot s)) in
  messages (view m)
  = messages s
    ++ [{| id := randomUUID w 0; role := user;
           content := VString (trim (c_input c)); timestamp := now w 0 |}]
  /\ error (view m)
     = Some {| type := network;
               message := lit "Network error. Please check your connection." |}
  /\ isLoading (view m) = false.
Proof.
  intros H1 H2 Hacq Htok Herr Hcase.
  send_with_token H1 H2 Htok.
  destruct Hcase as [[e Hf] | [r [Hf [Hok [[e Hj] | Hj]]]]];
    rewrite Hf; cbn; try rewrite Hok; cbn;
    unfold response_json, call; try rewrite Hj; cbn;
    rewrite Herr; cbn; now repeat split.
Qed.

(** X5. An identity token that is the empty string is falsy: the send
    issues no HTTP request, appends only the user's message and, when no
    error was showing at submission, records the network-class error. *)
Theorem empty_token_counts_as_none
  (c : Closure) (w : World) (s : State) :
  trim (c_input c) <> [] ->
  c_isLoading c = false ->
  acquires c w (Some []) ->
  let m := snd (sendMessage c w (boot s)) in
  filter isFetch (events m) = []
  /\ messages (view m)
     = messages s
       ++ [{| id := randomUUID w 0; role := user;
              content := VString (trim (c_input c)); timestamp := now w 0 |}]
  /\ (c_error c = None ->
      error (view m)
      = Some {| type := network;
                message := lit "Network error. Please check your connection." |}).
Proof.
  intros H1 H2 Hacq.
  unfold sendMessage. rewrite (guard_accepts c H1 H2). cbn. enter_try.
  destruct (acquisition_token A) as [evs [-> Hevs]]. clear A.
  cbn. destruct (c_error c) eqn:Herr; cbn;
    unfold events; cbn; repeat rewrite map_app; repeat rewrite filter_app; cbn;
    rewrite acquisition_events_no_fetch by assumption;
    repeat split; intros; congruence.
Qed.

(** X6. Single flight. In an accepted send, from [setIsLoading(true)] up
    to [setIsLoading(false)] the send button and the input field are
    disabled in every state the view goes through, and submitting again
    from any of these states changes nothing. Every call to the identity
    library and the network falls inside this window, and
    [setIsLoading(false)] is followed by the focus call only. *)
Theorem single_flight_window (c : Closure) (w : World) (s : State) :
  trim (c_input c) <> [] ->
  c_isLoading c = false ->
  let tr := trace (snd (sendMessage c w (boot s))) in
  inFlight tr <> []
  /\ Forall (fun es =>
               sendButtonDisabled (render w (snd es)) = true
               /\ inputDisabled (render w (snd es)) = true
               /\ forall m, sendMessage (render w (snd es)) w m = (Ok tt, m))
       (inFlight tr)
  /\ filter isNetwork (map fst tr) = filter isNetwork (map fst (inFlight tr))
  /\ map fst (fromFirst clearsFlag tr) = [SetIsLoading false; FocusInput].
Proof.
  intros H1 H2.
  assert (Hbusy : forall st, isLoading st = true ->
            sendButtonDisabled (render w st) = true
            /\ inputDisabled (render w st) = true
            /\ forall m, sendMessage (render w st) w m = (Ok tt, m)).
  { intros st Hst. unfold sendButtonDisabled, inputDisabled, sendMessage.
    cbn [render c_input c_isLoading]. rewrite Hst, orb_true_r. now repeat split. }
  all_paths c w H1 H2.
  all: (split; [discriminate|]);
       (split; [repeat (apply Forall_cons; [apply Hbusy; reflexivity|]);
                apply Forall_nil|]);
       split; reflexivity.
Qed.

Lemma trimStart_split (s : jsstring) :
  exists pre, s = pre ++ trimStart s /\ forallb isWhiteSpace pre = true.
Proof.
  induction s as [|c s [pre [E W]]]; [now exists []|].
  cbn. destruct (isWhiteSpace c) eqn:Hc.
  - exists (c :: pre). cbn. rewrite Hc, W. split; [now f_equal | reflexivity].
  - now exists [].
Qed.

Lemma forallb_rev {T} (p : T -> bool) (l : list T) :
  forallb p l = true -> forallb p (rev l) = true.
Proof.
  intro H. apply forallb_forall. intros x Hin.
  apply in_rev in Hin. revert x Hin. now apply forallb_forall.
Qed.

(** [trim] removes a run of whitespace at each end and nothing else, and
    what is left neither starts nor ends with whitespace. *)
Lemma trim_spec (s : jsstring) :
  exists pre post,
    s = pre ++ trim s ++ post
    /\ forallb isWhiteSpace pre = true
    /\ forallb isWhiteSpace post = true
    /\ (forall c t, trim s = c :: t -> isWhiteSpace c = false)
    /\ (forall t c, trim s = t ++ [c] -> isWhiteSpace c = false).
Proof.
  unfold trim, trimEnd.
  destruct (trimStart_split s) as [pre [E W]].
  destruct (trimStart_split (rev (trimStart s))) as [pre2 [E2 W2]].
  set (t0 := trimStart s) in *. set (u := trimStart (rev t0)) in *.
  assert (Et0 : t0 = rev u ++ rev pre2).
  { rewrite <- rev_app_distr, <- E2. now rewrite rev_involutive. }
  exists pre, (rev pre2). split; [now rewrite <- Et0|].
  split; [exact W|]. split; [now apply forallb_rev|]. split.
  - intros c t Hc. rewrite Hc in Et0. cbn in Et0.
    now apply (trimStart_head s (c := c) (t := t ++ rev pre2)).
  - intros t c Hc.
    assert (Hu : u = c :: rev t).
    { rewrite <- (rev_involutive u), Hc, rev_app_distr. reflexivity. }
    now apply (trimStart_head (rev t0) (c := c) (t := rev t)).
Qed.

(** X7. The text of the user's message appended by an accepted send is
    the input with a run of whitespace removed at each end and nothing else
    changed; it is not empty and neither starts nor ends with
    whitespace. *)
Theorem user_text_is_input_without_surrounding_whitespace
  (c : Closure) (w : World) (s : State) :
  trim (c_input c) <> [] ->
  c_isLoading c = false ->
  exists text pre post,
    In {| id := randomUUID w 0; role := user; content := VString text;
          timestamp := now w 0 |}
       (messages (view (snd (sendMessage c w (boot s)))))
    /\ c_input c = pre ++ text ++ post
    /\ forallb isWhiteSpace pre = true
    /\ forallb isWhiteSpace post = true
    /\ text <> []
    /\ isWhiteSpace (hd 0%N text) = false
    /\ isWhiteSpace (last text 0%N) = false.
Proof.
  intros H1 H2.
  destruct (trim_spec (c_input c)) as [pre [post [E [W1 [W2 [Hh Hl]]]]]].
  exists (trim (c_input c)), pre, post.
  split.
  - destruct (@send_outcome c w (boot s) H1 H2) as [_ [[Em _] | [reply [Em _]]]];
      rewrite Em; apply in_or_app; right; now left.
  - repeat split; try assumption.
    + destruct (trim (c_input c)) as [|x t] eqn:Et; [congruence|].
      now apply (Hh x t).
    + destruct (last_or_nil (trim (c_input c))) as [Et | [t [x Et]]];
        [congruence|].
      rewrite Et, last_last. now apply (Hl t x).
Qed.

(** X8. The send button is disabled exactly when [sendMessage] would do
    nothing: the [disabled] expression of the button and the guard of the
    callback agree. *)
Theorem send_button_disabled_iff_send_is_noop
  (c : Closure) (w : World) (m : Machine) :
  sendButtonDisabled c = true <-> sendMessage c w m = (Ok tt, m).
Proof.
  unfold sendButtonDisabled. split.
  - intro G. unfold sendMessage. now rewrite G.
  - intro E.
    destruct (negb (truthy (trim (c_input c))) || c_isLoading c) eqn:G;
      [reflexivity|].
    apply orb_false_iff in G as [G1 G2].
    apply negb_false_iff, truthy_nonempty in G1.
    destruct (@send_outcome c w m G1 G2) as [_ [[_ [U _]] | [reply [_ [U _]]]]];
      rewrite E in U; cbn in U; [destruct U|]; lia.
Qed.

(* ================================================================== *)
(** ** Key presses and token acquisition *)
(* ================================================================== *)

Lemma eqb_eq (a b : jsstring) : JS.eqb a b = true <-> a = b.
Proof.
  unfold JS.eqb. destruct (list_eq_dec N.eq_dec a b); split; congruence.
Qed.

(** X9. A key press sends only when the key is Enter without Shift: then
    the default action is prevented and [sendMessage] runs; Shift+Enter and
    every other key leave the view and the log untouched. *)
Theorem key_press_sends_only_on_plain_enter
  (c : Closure) (w : World) (m : Machine) (key : jsstring) (shiftKey : bool) :
  (key = lit "Enter" /\ shiftKey = false ->
   handleKeyDown c key shiftKey w m
   = sendMessage c w (logged m [PreventDefault]))
  /\ (key <> lit "Enter" \/ shiftKey = true ->
      handleKeyDown c key shiftKey w m = (Ok tt, m)).
Proof.
  unfold handleKeyDown. split.
  - intros [-> ->]. rewrite (proj2 (eqb_eq _ _) eq_refl). reflexivity.
  - intros [Hk | ->].
    + destruct (JS.eqb key (lit "Enter")) eqn:E; [|reflexivity].
      apply eqb_eq in E. contradiction.
    + now rewrite andb_false_r.
Qed.

(** X10. [acquireToken] never throws, whatever the identity library
    throws. It makes at most two acquisition calls and no HTTP request,
    never changes the transcript, the input field or the in-flight flag,
    leaves the whole state alone when it returns a token, and changes the
    error only by recording the authentication error together with
    returning none. *)
Theorem acquireToken_never_throws
  (account : option AccountInfo) (w : World) (m : Machine) :
  let r := acquireToken account w m in
  exists token tr,
    fst r = Ok token
    /\ trace (snd r) = trace m ++ tr
    /\ existsb isFetch (map fst tr) = false
    /\ List.length (filter isAcquisition (map fst tr)) <= 2
    /\ messages (view (snd r)) = messages (view m)
    /\ input (view (snd r)) = input (view m)
    /\ isLoading (view (snd r)) = isLoading (view m)
    /\ (token <> None -> view (snd r) = view m)
    /\ (error (view (snd r)) = error (view m)
        \/ (token = None
            /\ error (view (snd r))
               = Some {| type := auth;
                         message := lit "Authentication failed. Please sign in again." |})).
Proof.
  cbv zeta.
  destruct (acquireToken_outcome
              {| c_input := []; c_isLoading := false; c_error := None;
                 c_activeAccount := account |} w m) as [r [m' [E A]]].
  cbn [c_activeAccount] in E. rewrite E. cbn [fst snd].
  inversion A; subst.
  - exists None, []. rewrite app_nil_r. repeat split; auto.
  - eexists _, _. repeat split; cbn; auto.
  - eexists _, _. repeat split; cbn; auto.
  - eexists _, _. split; [reflexivity|]. split; [reflexivity|].
    repeat split; cbn; auto. congruence.
  - eexists _, _. repeat split; cbn; auto.
Qed.

(* ================================================================== *)
(** ** Sessions: sequences of operations *)
(* ================================================================== *)

(** What one operation does to the transcript and to the identifier
    counter. *)
Lemma perform_outcome (op : Operation) (c : Closure) (w : World) (m : Machine) :
  let m' := snd (perform op c w m) in
  (messages (view m') = messages (view m) /\ uuids m' = uuids m)
  \/ (exists u,
        messages (view m') = messages (view m) ++ [u]
        /\ role u = user /\ id u = randomUUID w (uuids m)
        /\ uuids m < uuids m')
  \/ (exists u a,
        messages (view m') = messages (view m) ++ [u; a]
        /\ role u = user /\ id u = randomUUID w (uuids m)
        /\ role a = assistant /\ id a = randomUUID w (S (uuids m))
        /\ uuids m' = S (S (uuids m))).
Proof.
  assert (Hsend : forall m0, 
    let m' := snd (sendMessage c w m0) in
    (messages (view m') = messages (view m0) /\ uuids m' = uuids m0)
    \/ (exists u,
        messages (view m') = messages (view m0) ++ [u]
        /\ role u = user /\ id u = randomUUID w (uuids m0)
        /\ uuids m0 < uuids m')
    \/ (exists u a,
        messages (view m') = messages (view m0) ++ [u; a]
        /\ role u = user /\ id u = randomUUID w (uuids m0)
        /\ role a = assistant /\ id a = randomUUID w (S (uuids m0))
        /\ uuids m' = S (S (uuids m0)))).
  { intro m0. cbv zeta.
    destruct (negb (truthy (trim (c_input c))) || c_isLoading c) eqn:G.
    - left. unfold sendMessage. rewrite G. now split.
    - right. apply orb_false_iff in G as [G1 G2].
      apply negb_false_iff, truthy_nonempty in G1.
      destruct (@send_outcome c w m0 G1 G2) as [_ [[E [U _]] | [reply [E [U _]]]]].
      + left. eexists. split; [exact E|]. repeat split.
        destruct U as [->| ->]; lia.
      + right. eexists _, _. split; [exact E|]. now repeat split. }
  destruct op as [|key shiftKey|v|]; cbn [perform].
  - apply Hsend.
  - unfold handleKeyDown.
    destruct (JS.eqb key (lit "Enter") && negb shiftKey).
    + unfold bind, call. cbn [fst snd]. 
      apply (Hsend {| view := view m; uuids := uuids m; dates := dates m;
                      trace := trace m ++ [(PreventDefault, view m)] |}).
    + left. now split.
  - left. now split.
  - left. now split.
Qed.

(** C9, as the code has it. The transcript is append-only. Every single
    state update an operation of the view performs either leaves the
    message list as it is or puts exactly one message at its end, so every
    state the view goes through, and the final one, holds the initial list
    as a prefix: no existing message is changed, removed or moved. A whole
    operation (send button, key press, typing, sign-out) leaves the list
    unchanged, or appends one user message, or appends one user message
    followed by one assistant message (a successful send). *)
Theorem transcript_grows_by_at_most_one_turn
  (op : Operation) (c : Closure) (w : World) (s : State) :
  let m := snd (perform op c w (boot s)) in
  appendChain s (map snd (trace m))
  /\ Forall (fun st => exists added, messages st = messages s ++ added)
       (history s m)
  /\ (messages (view m) = messages s
      \/ (exists u, messages (view m) = messages s ++ [u] /\ role u = user)
      \/ (exists u a,
            messages (view m) = messages s ++ [u; a]
            /\ role u = user /\ role a = assistant)).
Proof.
  intro m. subst m.
  destruct (AppendOnly_perform op c w (boot s)) as [tr [T [C V]]].
  unfold history. simpl in T, C, V. rewrite T. repeat split.
  - exact C.
  - apply Forall_forall. intros st [<-|Hin].
    + exists []. now rewrite app_nil_r.
    + now apply (appendChain_prefix s (map snd tr)).
  - destruct (perform_outcome op c w (boot s))
      as [[Em _] | [[u [Em [Ru _]]] | [u [a [Em [Ru [_ [Ra _]]]]]]]].
    + now left.
    + right. left. now exists u.
    + right. right. now exists u, a.
Qed.

(** C9, as stated, fails for an operation as a whole: a successful send
    appends two messages, the user's and the assistant's, so its final
    transcript is neither the initial one nor the initial one plus exactly
    one message. *)
Lemma successful_send_appends_two_messages :
  let m := snd (perform ClickSend (render happy fresh) happy (boot fresh)) in
  messages (view m)
  = messages fresh
    ++ [hiMessage 0;
        {| id := lit "msg-1"; role := assistant;
           content := VString (lit "hello");
           timestamp := 1700000000001%Z |}]
  /\ ~ (messages (view m) = messages fresh
        \/ exists msg, messages (view m) = messages fresh ++ [msg]).
Proof.
  split; [reflexivity|].
  intros [E | [msg E]]; vm_compute in E; discriminate E.
Qed.











(* ================================================================== *)
(** ** The request body determines the prompt *)
(* ================================================================== *)

Lemma unhex_hex (d : N) : (d < 16)%N -> unhexDigit (hexDigit d) = d.
Proof.
  intro H. unfold unhexDigit, hexDigit.
  destruct (d <? 10)%N eqn:E.
  - apply N.ltb_lt in E.
    assert (E' : (48 + d <? 58)%N = true) by (apply N.ltb_lt; lia).
    rewrite E'. lia.
  - apply N.ltb_ge in E.
    assert (E' : (87 + d <? 58)%N = false) by (apply N.ltb_ge; lia).
    rewrite E'. lia.
Qed.

Lemma hex_digits_value (c : N) :
  (c < 65536)%N ->
  (4096 * (N.shiftr c 12 mod 16) + 256 * (N.shiftr c 8 mod 16)
   + 16 * (N.shiftr c 4 mod 16) + c mod 16 = c)%N.
Proof.
  intro H. rewrite !N.shiftr_div_pow2.
  change (2 ^ 12)%N with 4096%N. change (2 ^ 8)%N with 256%N.
  change (2 ^ 4)%N with 16%N.
  zify. Z.to_euclidean_division_equations. lia.
Qed.

Lemma unquote_quoteUnit (c : N) (t : jsstring) :
  unquoteBody (quoteUnit c ++ t) = c :: unquoteBody t.
Proof.
  unfold quoteUnit.
  repeat match goal with
         | |- context [if (c =? ?k)%N then _ else _] =>
             destruct (N.eqb_spec c k) as [->|?]; [reflexivity|]
         end.
  destruct ((c <? 32)%N || isLeadingSurrogate c || isTrailingSurrogate c) eqn:E.
  - assert (Hc : (c < 65536)%N).
    { unfold isLeadingSurrogate, isTrailingSurrogate in E.
      apply orb_true_iff in E as [E|E];
        [apply orb_true_iff in E as [E|E]|].
      - apply N.ltb_lt in E. lia.
      - apply andb_true_iff in E as [_ E]. apply N.leb_le in E. lia.
      - apply andb_true_iff in E as [_ E]. apply N.leb_le in E. lia. }
    unfold unicodeEscape. cbn [app unquoteBody].
    change (92 =? 92)%N with true. change (117 =? 117)%N with true.
    cbv iota.
    rewrite !unhex_hex by (apply N.mod_lt; discriminate).
    now rewrite (hex_digits_value Hc).
  - cbn [app unquoteBody].
    destruct (N.eqb_spec c 92) as [->|?]; [contradiction|reflexivity].
Qed.

Lemma surrogate_not_backslash (c : N) :
  isLeadingSurrogate c || isTrailingSurrogate c = true -> (c =? 92)%N = false.
Proof.
  unfold isLeadingSurrogate, isTrailingSurrogate. intro E.
  apply N.eqb_neq. intros ->. discriminate E.
Qed.

Lemma quoteBody_pair (c d : N) (rest : jsstring) :
  quoteBody (c :: d :: rest)
  = if isLeadingSurrogate c && isTrailingSurrogate d
    then c :: d :: quoteBody rest
    else quoteUnit c ++ quoteBody (d :: rest).
Proof. reflexivity. Qed.

Lemma unquote_quoteBody_bounded (n : nat) (s : jsstring) :
  List.length s <= n -> unquoteBody (quoteBody s) = s.
Proof.
  revert s. induction n as [|n IH]; intros s Hn.
  - destruct s; [reflexivity | cbn in Hn; lia].
  - destruct s as [|c [|d rest]]; [reflexivity | |].
    + cbn [quoteBody]. rewrite <- (app_nil_r (quoteUnit c)).
      now rewrite unquote_quoteUnit.
    + rewrite quoteBody_pair.
      destruct (isLeadingSurrogate c && isTrailingSurrogate d) eqn:E.
      * apply andb_true_iff in E as [Ec Ed].
        cbn [unquoteBody].
        rewrite (surrogate_not_backslash c) by (now rewrite Ec).
        cbn [unquoteBody].
        rewrite (surrogate_not_backslash d) by (now rewrite Ed, orb_true_r).
        do 2 f_equal. apply IH. cbn in Hn. lia.
      * rewrite unquote_quoteUnit.
        f_equal. apply IH. cbn in Hn |- *. lia.
Qed.

Lemma unquote_quoteBody (s : jsstring) : unquoteBody (quoteBody s) = s.
Proof. now apply (unquote_quoteBody_bounded (n := List.length s)). Qed.

Lemma quoteJSONString_injective (a b : jsstring) :
  quoteJSONString a = quoteJSONString b -> a = b.
Proof.
  unfold quoteJSONString. intro E.
  apply app_inv_head in E. apply app_inv_tail in E.
  rewrite <- (unquote_quoteBody a), <- (unquote_quoteBody b). now rewrite E.
Qed.

(** X14. The request determines the token and the trimmed text: two
    requests built by [sendMessage] are equal only if their tokens and
    their texts are. No text, whatever quotes, backslashes, control
    characters or surrogates it holds, yields the body of another text. *)
Theorem request_determines_token_and_text (tok tok' a b : jsstring) :
  chatRequest tok a = chatRequest tok' b -> tok = tok' /\ a = b.
Proof.
  intro E. split.
  - apply (f_equal headers) in E. unfold chatRequest in E.
    cbn [headers] in E.
    apply (f_equal (fun h => snd (hd ([], []) h))) in E. cbn [hd snd] in E.
    now apply app_inv_head in E.
  - apply (f_equal body) in E. unfold chatRequest, JSON_stringify_prompt in E.
    cbn [body] in E.
    do 3 apply app_inv_head in E. apply app_inv_tail in E.
    now apply quoteJSONString_injective.
Qed.

(* ================================================================== *)
(** ** Start-up, routing and logging *)
(* ================================================================== *)

Section AppProofs.
Import App.
Local Open Scope app_scope.

Ltac init_paths w :=
  unfold initializeMsal, try_catch, bind, call, msalInstance_setActiveAccount,
    setIsInitialized; cbn;
  repeat match goal with
  | |- context [initialize w] => destruct (initialize w) as [[]|?]; cbn
  | |- context [handleRedirectPromise w] =>
      destruct (handleRedirectPromise w) as [[]|?]; cbn
  | |- context [getAllAccounts w] =>
      destruct (getAllAccounts w) as [[|? ?]|?]; cbn
  | |- context [setActiveAccount w ?a] =>
      destruct (setActiveAccount w a) as [[]|?]; cbn
  | |- context [addEventCallback w] =>
      destruct (addEventCallback w) as [[]|?]; cbn
  end.

Lemma initializeMsal_sets_flag (w : World) (m : Machine) :
  isInitialized (snd (initializeMsal w m)) = true.
Proof. init_paths w; reflexivity. Qed.

(** X15. [initializeMsal] never throws and always ends with
    [setIsInitialized(true)], called exactly once and last, whether the
    identity library initializes or fails at any of its calls. *)
Theorem initializeMsal_always_initializes (w : World) (m : Machine) :
  let r := initializeMsal w m in
  fst r = Ok tt
  /\ isInitialized (snd r) = true
  /\ exists earlier,
       calls (snd r) = calls m ++ earlier ++ [SetIsInitialized true]
       /\ existsb isSetIsInitialized earlier = false.
Proof.
  init_paths w.
  all: split; [reflexivity|]; split; [reflexivity|].
  all: repeat rewrite <- app_assoc; cbn.
  all: match goal with
       | |- exists earlier, ?a ++ ?l = ?a ++ earlier ++ _ /\ _ =>
           let t := eval cbn in (removelast l) in exists t
       end; split; reflexivity.
Qed.


(** X16. When [initialize] rejects, nothing else of the library is
    called: the failure is logged and the flag is set. When [initialize]
    succeeds and [handleRedirectPromise] rejects, the accounts are not
    read, no active account is set and no event callback is registered. *)
Theorem initializeMsal_failure_short_circuits (w : World) (m : Machine) :
  (forall e, initialize w = Thrown e ->
     calls (snd (initializeMsal w m))
     = calls m ++ [Initialize;
                   ConsoleError (lit "MSAL initialization failed:");
                   SetIsInitialized true])
  /\ (forall e, initialize w = Ok tt -> handleRedirectPromise w = Thrown e ->
     calls (snd (initializeMsal w m))
     = calls m ++ [Initialize; HandleRedirectPromise;
                   ConsoleError (lit "MSAL initialization failed:");
                   SetIsInitialized true]).
Proof.
  split; intros e.
  - intro Hi. unfold initializeMsal, try_catch, bind, call, setIsInitialized.
    rewrite Hi. cbn. now rewrite <- !app_assoc.
  - intros Hi Hr.
    unfold initializeMsal, try_catch, bind, call, setIsInitialized.
    rewrite Hi. cbn. rewrite Hr. cbn. now rewrite <- !app_assoc.
Qed.

(** X17. [initializeMsal] sets the active account exactly when both
    awaited calls succeeded and the library knows at least one account, and
    then once, to the first account; otherwise it never sets it. *)
Theorem initializeMsal_picks_first_account (w : World) (m : Machine) :
  exists new,
    calls (snd (initializeMsal w m)) = calls m ++ new
    /\ filter isSetActiveAccount new
       = match initialize w, handleRedirectPromise w, getAllAccounts w with
         | Ok _, Ok _, Ok (first :: _) => [SetActiveAccount (Some first)]
         | _, _, _ => []
         end.
Proof.
  init_paths w.
  all: repeat rewrite <- app_assoc; cbn.
  all: eexists; split; [reflexivity|]; reflexivity.
Qed.

(** X18. The event callback sets the active account, to the account of
    the payload, only for a LOGIN_SUCCESS event that carries a payload; for
    every other event it does nothing. It never touches the initialization
    flag. *)
Theorem loginCallback_only_on_login_success
  (event : EventMessage) (w : World) (m : Machine) :
  let m' := snd (loginCallback event w m) in
  isInitialized m' = isInitialized m
  /\ (forall p, eventType event = LOGIN_SUCCESS -> payload event = Some p ->
       calls m' = calls m ++ [SetActiveAccount (account p)])
  /\ (eventType event <> LOGIN_SUCCESS \/ payload event = None ->
       m' = m).
Proof.
  unfold loginCallback. destruct event as [[|name] [p|]]; cbn; repeat split.
  all: try (intros; congruence).
  all: try (intros [H|H]; congruence).
  all: try (intros [H|H]; try reflexivity; congruence).
Qed.

(** X19. Once [initializeMsal] has run, the application on the index
    route never shows the start-up spinner again: it shows the chat page
    exactly when no interaction is in progress and the user is
    authenticated, the login page exactly when no interaction is in
    progress and the user is not, and the authenticating indicator exactly
    while an interaction is in progress. Before initialization it shows the
    spinner, whatever the authentication state. *)
Theorem chat_shown_only_when_settled_and_authenticated
  (w : World) (m : Machine) (inProgress : InteractionStatus)
  (isAuthenticated : bool) :
  let shown := App (isInitialized (snd (initializeMsal w m)))
                 inProgress isAuthenticated in
  (shown = ChatPage <-> inProgress = None_ /\ isAuthenticated = true)
  /\ (shown = LoginPage <-> inProgress = None_ /\ isAuthenticated = false)
  /\ (shown = Authenticating <-> inProgress <> None_)
  /\ shown <> Spinner
  /\ App false inProgress isAuthenticated = Spinner.
Proof.
  rewrite (initializeMsal_sets_flag w m).
  destruct inProgress, isAuthenticated; cbn;
    repeat split; try congruence; try (intros [? ?]; congruence);
    try (intro; discriminate).
Qed.

End AppProofs.

Section LoggerProofs.
Import AuthConfig.

(** X20. The logger callback writes nothing for a message flagged as
    containing personal data and nothing at level Trace; otherwise it makes
    exactly one console call, with the message unchanged, on a console
    method that identifies the level. *)
Theorem loggerCallback_never_logs_pii
  (level : LogLevel) (message : jsstring) (containsPii : bool) :
  let out := loggerCallback level message containsPii in
  (containsPii = true -> out = [])
  /\ List.length out <= 1
  /\ Forall (fun c => text c = message) out
  /\ (out = [] <-> containsPii = true \/ level = Trace)
  /\ (forall level' message',
       out <> [] ->
       loggerCallback level' message' false = out ->
       level' = level /\ message' = message).
Proof.
  cbv zeta. split; [intros ->; reflexivity|].
  split; [destruct containsPii, level; cbn; lia|].
  split; [destruct containsPii, level; cbn; repeat constructor|].
  split.
  - destruct containsPii, level; cbn; split; intro H;
      try discriminate; auto; destruct H; discriminate.
  - intros level' message' Hne E.
    destruct containsPii; [now contradiction Hne|].
    destruct level, level'; cbn in *; try discriminate;
      try (now contradiction Hne); injection E as ->; now split.
Qed.

End LoggerProofs.

(* ================================================================== *)
(** ** Concrete runs of the further properties *)
(* ================================================================== *)

(** X2 at the body whose [reply] is [hello]. *)
Lemma send_ends_with_reply_or_error_witness :
  (messages (view (snd (run sendMessage happy fresh))) = [hiMessage 0]
   /\ exists e, error (view (snd (run sendMessage happy fresh))) = Some e)
  \/ (exists reply,
        messages (view (snd (run sendMessage happy fresh)))
        = [hiMessage 0;
           {| id := lit "msg-1"; role := assistant; content := reply;
              timestamp := 1700000000001%Z |}]
        /\ error (view (snd (run sendMessage happy fresh))) = None).
Proof.
  exact (@send_ends_with_reply_or_error
           (render happy fresh) happy fresh
           (proj1 (fresh_accepted happy)) (proj2 (fresh_accepted happy))
           eq_refl).
Defined.

(** X3 at a body that is an object without [reply]. *)
Lemma reply_missing_appends_undefined_witness :
  messages (view (snd (run sendMessage noReply fresh)))
  = [hiMessage 0;
     {| id := lit "msg-1"; role := assistant; content := VUndefined;
        timestamp := 1700000000001%Z |}]
  /\ error (view (snd (run sendMessage noReply fresh))) = None.
Proof.
  refine (@reply_missing_appends_undefined
            (render noReply fresh) noReply fresh (lit "tok")
            {| status := 200;
               json := Ok (VObject [(lit "answer", VString (lit "hello"))]) |}
            (VObject [(lit "answer", VString (lit "hello"))])
            (proj1 (fresh_accepted noReply)) (proj2 (fresh_accepted noReply))
            (fun m => eq_refl)
            ltac:(vm_compute; discriminate) eq_refl eq_refl eq_refl
            ltac:(discriminate) ltac:(discriminate) _).
  intros props E. injection E as <-. reflexivity.
Defined.

(** X4 with the network down. *)
Lemma exception_after_token_records_network_error_witness :
  messages (view (snd (run sendMessage offline fresh))) = [hiMessage 0]
  /\ error (view (snd (run sendMessage offline fresh))) = Some networkError
  /\ isLoading (view (snd (run sendMessage offline fresh))) = false.
Proof.
  refine (@exception_after_token_records_network_error
            (render offline fresh) offline fresh (lit "tok")
            (proj1 (fresh_accepted offline)) (proj2 (fresh_accepted offline))
            (token_acquired [] failure failure)
            ltac:(vm_compute; discriminate) eq_refl _).
  left. eexists. reflexivity.
Defined.

(** X5 at an identity token that is the empty string. *)
Lemma empty_token_counts_as_none_witness :
  filter isFetch (events (snd (run sendMessage emptyToken fresh))) = []
  /\ error (view (snd (run sendMessage emptyToken fresh))) = Some networkError.
Proof.
  destruct (@empty_token_counts_as_none
              (render emptyToken fresh) emptyToken fresh
              (proj1 (fresh_accepted emptyToken))
              (proj2 (fresh_accepted emptyToken))
              (fun m => eq_refl))
    as [Hfetch [_ Herr]].
  split; [exact Hfetch | exact (Herr eq_refl)].
Defined.

(** X6 on a successful send. *)
Lemma single_flight_window_witness :
  inFlight (trace (snd (run sendMessage happy fresh))) <> []
  /\ map fst (fromFirst clearsFlag (trace (snd (run sendMessage happy fresh))))
     = [SetIsLoading false; FocusInput].
Proof.
  destruct (@single_flight_window
              (render happy fresh) happy fresh
              (proj1 (fresh_accepted happy)) (proj2 (fresh_accepted happy)))
    as [Hne [_ [_ Hend]]].
  split; [exact Hne | exact Hend].
Defined.

(** X7 at the input [  hi  ]. *)
Lemma user_text_is_input_without_surrounding_whitespace_witness :
  exists text pre post,
    In {| id := lit "msg-0"; role := user; content := VString text;
          timestamp := 1700000000000%Z |}
       (messages (view (snd (run sendMessage happy fresh))))
    /\ lit "  hi  " = pre ++ text ++ post
    /\ forallb isWhiteSpace pre = true
    /\ forallb isWhiteSpace post = true
    /\ text <> []
    /\ isWhiteSpace (hd 0%N text) = false
    /\ isWhiteSpace (last text 0%N) = false.
Proof.
  exact (@user_text_is_input_without_surrounding_whitespace
           (render happy fresh) happy fresh
           (proj1 (fresh_accepted happy)) (proj2 (fresh_accepted happy))).
Defined.




(** X14 at one request. *)
Lemma request_determines_token_and_text_witness :
  lit "tok" = lit "tok" /\ lit "hi" = lit "hi".
Proof.
  exact (@request_determines_token_and_text
           (lit "tok") (lit "tok") (lit "hi") (lit "hi") eq_refl).
Defined.
